(** * PDF2PNG: path discovery and conversion (logic.py, cli.py, gui.py)

    A shallow embedding of [find_pdfs], [convert_pdf] and the command-line
    entry point [_main], with the file system as a finite map from absolute
    paths to nodes, the log sink as a list of lines, and Python exceptions as
    an explicit error result.  PyMuPDF is a black box: a document is the
    data the code reads from it (encryption flag, password check, pages).

    The calls that can fail in the model are the ones the file system,
    the document or the arguments decide: [pymupdf.open],
    [load_page]/[get_pixmap], [pix.save], [Path.mkdir], the conversion of
    the DPI to a float, and in [find_pdfs_call] the pathlib calls on an
    input.  The log sink, [Path.exists], [doc.authenticate],
    [doc.page_count] and [doc.close] return normally; a machine on which
    permissions or the length of a name make the operating system refuse a
    call of [convert_pdf] is outside the model. *)

From Stdlib Require Import ZArith Ascii Sorted SpecFloat.
From stdpp Require Import base strings list gmap pretty.

Local Open Scope string_scope.
Local Open Scope list_scope.
Local Open Scope Z_scope.

(** ** pathlib *)

(** An absolute path is the list of its components below the root; the
    root itself is the empty list. *)
Abbreviation Path := (list string).

Module PurePath.

(** [str.rfind(c)]: index of the last occurrence, or -1. *)
Fixpoint rfind (c : ascii) (s : string) : Z :=
  match s with
  | EmptyString => -1
  | String a s' =>
      let r := rfind c s' in
      if 0 <=? r then r + 1 else if bool_decide (a = c) then 0 else -1
  end.

Definition len (s : string) : Z := Z.of_nat (String.length s).

(** [s[i:]] and [s[:i]] for [0 <= i <= len s]. *)
Definition slice_from (i : Z) (s : string) : string :=
  String.substring (Z.to_nat i) (String.length s - Z.to_nat i) s.
Definition slice_to (i : Z) (s : string) : string :=
  String.substring 0 (Z.to_nat i) s.

Definition lower_ascii (a : ascii) : ascii :=
  let n := Ascii.N_of_ascii a in
  if ((65 <=? n) && (n <=? 90))%N then Ascii.ascii_of_N (n + 32) else a.

(** [str.lower()] on the ASCII range. *)
Fixpoint lower (s : string) : string :=
  match s with
  | EmptyString => EmptyString
  | String a s' => String (lower_ascii a) (lower s')
  end.

(** [PurePath.name]: the final component. *)
Definition name (p : Path) : string := List.last p EmptyString.

(** [PurePath.parent]. *)
Definition parent (p : Path) : Path := removelast p.

(** A component that a join keeps and the operating system reads as a
    name: pathlib drops an empty component or a [.] when it joins, and
    [..] names the directory above. *)
Definition plain (s : string) : Prop :=
  s ≠ EmptyString ∧ s ≠ "." ∧ s ≠ "..".

(** [p / s] for a single [plain] component [s]. *)
Definition joinpath (p : Path) (s : string) : Path := p ++ [s].

(** [PurePath.suffix]:
      i = name.rfind('.')
      if 0 < i < len(name) - 1: return name[i:]
      else: return ''                                   *)
Definition suffix_of (nm : string) : string :=
  let i := rfind "." nm in
  if (0 <? i) && (i <? len nm - 1) then slice_from i nm else EmptyString.

(** [PurePath.stem]: the name without its suffix. *)
Definition stem_of (nm : string) : string :=
  let i := rfind "." nm in
  if (0 <? i) && (i <? len nm - 1) then slice_to i nm else nm.

Definition suffix (p : Path) : string := suffix_of (name p).
Definition stem (p : Path) : string := stem_of (name p).

(** [str(p)] on a POSIX system. *)
Definition to_str (p : Path) : string :=
  match p with
  | [] => "/"
  | _ => foldr (λ c acc, "/" +:+ c +:+ acc) EmptyString p
  end.

End PurePath.

(** ** fnmatch, as used by [Path.rglob] on one path component *)

Module Fnmatch.

Inductive tok :=
| Star                       (* [*]: any run of characters *)
| OneOf (cs : list ascii).   (* a literal character or a [...] class *)

Fixpoint fnmatch (pat : list tok) (s : string) : bool :=
  match pat with
  | [] => bool_decide (s = EmptyString)
  | Star :: pat' =>
      (fix star (s : string) : bool :=
         fnmatch pat' s ||
         match s with
         | EmptyString => false
         | String _ s' => star s'
         end) s
  | OneOf cs :: pat' =>
      match s with
      | EmptyString => false
      | String a s' => bool_decide (a ∈ cs) && fnmatch pat' s'
      end
  end.

(** The pattern ["*.[Pp][Dd][Ff]"] of [find_pdfs]. *)
Definition pdf_pattern : list tok :=
  [Star; OneOf ["."%char]; OneOf ["P"%char; "p"%char];
   OneOf ["D"%char; "d"%char]; OneOf ["F"%char; "f"%char]].

End Fnmatch.

Import PurePath Fnmatch.

(** ** PyMuPDF: matrices, pages, pixmaps, documents *)

(** A Python float: an IEEE 754 binary64 number, with the arithmetic of
    [SpecFloat] at precision 53 and exponent bound 1024. *)
Abbreviation float := spec_float.

(** The least integer [float()] refuses: the integers below it round to a
    finite double, and from it on the conversion raises [OverflowError]. *)
Definition float_overflow : Z := 2 ^ 1024 - 2 ^ 970.

(** [float(n)] for an integer below [float_overflow]: the nearest double,
    ties to even. *)
Definition to_float (n : Z) : float := binary_normalize 53 1024 n 0 false.

(** [pymupdf.Matrix]: six floats. *)
Record Matrix := {
  m_a : float; m_b : float; m_c : float;
  m_d : float; m_e : float; m_f : float
}.

(** [pymupdf.Matrix(sx, sy)]: the scaling matrix. *)
Definition Matrix_zoom (sx sy : float) : Matrix :=
  {| m_a := sx; m_b := S754_zero false; m_c := S754_zero false;
     m_d := sy; m_e := S754_zero false; m_f := S754_zero false |}.

(** A page: what it draws, and the message of the exception that
    rendering it raises ([load_page], [get_pixmap], or the writing of the
    picture for a reason of the machine's), if it does. *)
Record Page := { page_art : nat; page_fault : option string }.

(** The bitmap of a page rendered through a matrix, with or without alpha. *)
Record Pixmap := { pix_art : nat; pix_matrix : Matrix; pix_alpha : bool }.

Record Document := {
  needs_pass : bool;
  authenticate : string → bool;
  pages : list Page
}.

Definition page_count (doc : Document) : nat := length (pages doc).

(** ** The file system, the log sink and exceptions *)

(** What a regular file is to the program: a document, that is a file
    PyMuPDF opens (a PDF, or another format it reads), with what the code
    reads from it; a picture [pix.save] wrote, which is not followed
    further when it is given as a source; or another file, which PyMuPDF
    refuses. *)
Inductive Content :=
| Pdf (doc : Document)
| Png (pix : Pixmap)
| Other (data : string).

Inductive Node :=
| File (c : Content)
| Dir.

Inductive Exn :=
| FileExistsError (p : Path)
| NotADirectoryError (p : Path)
| FileNotFoundError (p : Path)
| FileDataError (p : Path)
| OverflowError
| OSError (msg : string)
| RuntimeError (msg : string).

(** [str(e)] as interpolated in the log lines.  The text of
    [FileDataError] is PyMuPDF's and differs with the kind of file and the
    version; no statement below depends on it. *)
Definition exn_str (e : Exn) : string :=
  match e with
  | FileExistsError p => "[Errno 17] File exists: '" +:+ to_str p +:+ "'"
  | NotADirectoryError p => "[Errno 20] Not a directory: '" +:+ to_str p +:+ "'"
  | FileNotFoundError p => "no such file: '" +:+ to_str p +:+ "'"
  | FileDataError p => "Failed to open file '" +:+ to_str p +:+ "'."
  | OverflowError => "int too large to convert to float"
  | OSError msg => msg
  | RuntimeError msg => msg
  end.

(** The world a call runs in: the file system (every existing path with
    what is there, the root included), the lines received by the log sink
    so far, and the number of document handles still open.  Permissions
    and symbolic links are not part of it. *)
Record World := {
  fs : gmap Path Node;
  log : list string;
  handles : nat
}.

Definition set_fs (f : gmap Path Node → gmap Path Node) (w : World) : World :=
  {| fs := f (fs w); log := log w; handles := handles w |}.
Definition add_log (line : string) (w : World) : World :=
  {| fs := fs w; log := log w ++ [line]; handles := handles w |}.
Definition set_handles (f : nat → nat) (w : World) : World :=
  {| fs := fs w; log := log w; handles := f (handles w) |}.

(** ** State and exceptions *)

Definition M (A : Type) : Type := World → World * (Exn + A).

#[global] Instance M_ret : MRet M := λ A x w, (w, inr x).
#[global] Instance M_bind : MBind M := λ A B f c w,
  match c w with
  | (w', inr x) => f x w'
  | (w', inl e) => (w', inl e)
  end.

Definition raise {A} (e : Exn) : M A := λ w, (w, inl e).

(** [try: c  except Exception as e: h e] *)
Definition try_except {A} (c : M A) (h : Exn → M A) : M A := λ w,
  match c w with
  | (w', inl e) => h e w'
  | r => r
  end.

(** [try: c  finally: f] *)
Definition try_finally {A} (c : M A) (f : M unit) : M A := λ w,
  let '(w', r) := c w in
  match f w' with
  | (w'', inl e) => (w'', inl e)
  | (w'', inr _) => (w'', r)
  end.

(** [for x in l: body x] *)
Fixpoint for_each {A} (l : list A) (body : A → M unit) : M unit :=
  match l with
  | [] => mret tt
  | x :: l' => body x ;; for_each l' body
  end.

(** *** Path queries *)

Definition is_file (fs : gmap Path Node) (p : Path) : bool :=
  match fs !! p with Some (File _) => true | _ => false end.

Definition is_dir (fs : gmap Path Node) (p : Path) : bool :=
  match fs !! p with Some Dir => true | _ => false end.

Definition exists_ (p : Path) : M bool := λ w,
  (w, inr (bool_decide (is_Some (fs w !! p)))).

(** [p.rglob(pattern)]: everything strictly below [p] whose name matches,
    files and directories alike, in the map's enumeration order. *)
Definition rglob (fs : gmap Path Node) (p : Path) (pat : list tok) : list Path :=
  filter (λ q, p `prefix_of` q ∧ q ≠ p ∧ fnmatch pat (name q) = true)
         (fst <$> map_to_list fs).

(** [p.mkdir(parents=True, exist_ok=True)]: walks the components of [p]
    below [base]; an existing directory is kept, a missing one is made, and
    a regular file in the way raises: [FileExistsError] when it stands at
    [p] itself, [NotADirectoryError], naming [p], when it stands above. *)
Fixpoint mkdir_from (base : Path) (rest : list string) (fs : gmap Path Node)
  : Exn + gmap Path Node :=
  match rest with
  | [] => inr fs
  | c :: rest' =>
      let q := base ++ [c] in
      match fs !! q with
      | Some Dir => mkdir_from q rest' fs
      | Some (File _) =>
          inl (match rest' with
               | [] => FileExistsError q
               | _ => NotADirectoryError (q ++ rest')
               end)
      | None => mkdir_from q rest' (<[q := Dir]> fs)
      end
  end.

Definition mkdir (p : Path) : M unit := λ w,
  match mkdir_from [] p (fs w) with
  | inl e => (w, inl e)
  | inr fs' => (set_fs (λ _, fs') w, inr tt)
  end.

(** *** PyMuPDF calls *)

(** [pymupdf.open(p)]: a document is opened; nothing at [p] raises
    [FileNotFoundError]; a directory or a refused file raises PyMuPDF's
    own error.  A picture standing at [p] is counted with the refused
    files. *)
Definition pymupdf_open (p : Path) : M Document := λ w,
  match fs w !! p with
  | Some (File (Pdf doc)) => (set_handles S w, inr doc)
  | Some _ => (w, inl (FileDataError p))
  | None => (w, inl (FileNotFoundError p))
  end.

(** [doc.close()] *)
Definition close (doc : Document) : M unit := λ w,
  (set_handles pred w, inr tt).

(** [doc.load_page(i)] *)
Definition load_page (doc : Document) (i : nat) : M Page := λ w,
  match pages doc !! i with
  | Some pg =>
      match page_fault pg with
      | Some msg => (w, inl (RuntimeError msg))
      | None => (w, inr pg)
      end
  | None => (w, inl (RuntimeError "page not in document"))
  end.

(** [page.get_pixmap(matrix=zoom, alpha=alpha)] *)
Definition get_pixmap (pg : Page) (zoom : Matrix) (alpha : bool) : M Pixmap :=
  mret {| pix_art := page_art pg; pix_matrix := zoom; pix_alpha := alpha |}.

(** A directory stands at [p] and something lies below it. *)
Definition blocked (fs : gmap Path Node) (p : Path) : bool :=
  is_dir fs p
  && bool_decide (Exists (λ q, p `prefix_of` q ∧ q ≠ p)
                         (fst <$> map_to_list fs)).

(** MuPDF's message when it cannot clear the target; the text may differ
    with the version, and no statement below depends on it. *)
Definition cannot_remove (p : Path) : string :=
  "cannot remove file '" +:+ to_str p +:+ "': Directory not empty".

(** [pix.save(out_png)]: MuPDF removes what stands at the target and
    writes the file.  The parent of every path [convert_pdf] saves to is a
    directory by then (it holds the PDF, or [mkdir] has just made it); a
    file at the target is replaced, and so is an empty directory; a
    directory that holds something cannot be removed, and the call
    raises. *)
Definition save (pix : Pixmap) (out_png : Path) : M unit := λ w,
  if blocked (fs w) out_png then
    (w, inl (RuntimeError (cannot_remove out_png)))
  else (set_fs <[out_png := File (Png pix)]> w, inr tt).

(** ** logic.py *)

(** [_say]: [(log or print)(msg)]; either sink appends a line. *)
Definition _say (msg : string) : M unit := λ w, (add_log msg w, inr tt).

(** The machine at hand, as [find_pdfs] meets it: what
    [Path(raw).expanduser().resolve()] and [path.resolve()] give, and the
    exception that the turn of the loop for the input [raw] raises, if it
    does: [RuntimeError] from [expanduser] for a [~name] whose home
    directory cannot be determined, [OSError] from [is_file] or [is_dir]
    for a name the operating system refuses, and what the scan of a
    folder or the resolution of an entry raises. *)
Class PathEnv := {
  expand_resolve : string → Path;
  resolve : Path → Path;
  input_error : string → option Exn
}.

Section Discovery.
Context `{PathEnv}.

(** The body shared by both branches:
      if p not in seen: seen.add(p); out.append(p) *)
Definition visit (st : gset Path * list Path) (p : Path)
  : gset Path * list Path :=
  if decide (p ∈ st.1) then st else ({[p]} ∪ st.1, st.2 ++ [p]).

Definition find_pdfs_step (fs : gmap Path Node)
    (st : gset Path * list Path) (raw : string) : gset Path * list Path :=
  let p := expand_resolve raw in
  if is_file fs p && bool_decide (lower (suffix p) = ".pdf") then
    visit st p
  else if is_dir fs p then
    foldl (λ st path, visit st (resolve path)) st (rglob fs p pdf_pattern)
  else st.

Definition find_pdfs (fs : gmap Path Node) (inputs : list string)
  : list Path :=
  (foldl (find_pdfs_step fs) (∅, []) inputs).2.

(** The paths one input makes the loop look at, in order. *)
Definition candidates_of (fs : gmap Path Node) (raw : string) : list Path :=
  let p := expand_resolve raw in
  if is_file fs p && bool_decide (lower (suffix p) = ".pdf") then [p]
  else if is_dir fs p then resolve <$> rglob fs p pdf_pattern
  else [].

(** All the paths the loop looks at over a run, in order of encounter,
    repetitions included. *)
Definition encounters (fs : gmap Path Node) (inputs : list string)
  : list Path :=
  inputs ≫= candidates_of fs.

(** A call of [find_pdfs]: the first exception an input raises leaves the
    loop and the function, which has no handler; when no input raises, the
    call returns the list [find_pdfs] builds. *)
Definition find_pdfs_call (fs : gmap Path Node) (inputs : list string)
  : Exn + list Path :=
  match omap input_error inputs with
  | e :: _ => inl e
  | [] => inr (find_pdfs fs inputs)
  end.

End Discovery.

(** *** Conversion *)

(** [scale = max(dpi, 1) / 72.0]: the integer is converted to a float,
    which raises [OverflowError] from [float_overflow] on, and divided by
    the float 72. *)
Definition scale (dpi : Z) : float :=
  SFdiv 53 1024 (to_float (Z.max dpi 1)) (to_float 72).

(** [zoom = pymupdf.Matrix(scale, scale)] *)
Definition zoom (dpi : Z) : Matrix := Matrix_zoom (scale dpi) (scale dpi).

(** [not password or not doc.authenticate(password)]: [None] and the
    empty string are falsy, and [or] does not evaluate its right operand
    then. *)
Definition auth_fails (doc : Document) (password : option string) : bool :=
  match password with
  | None => true
  | Some pw =>
      if bool_decide (pw = EmptyString) then true
      else negb (authenticate doc pw)
  end.

(** The document may be read: it is not encrypted, or the password is
    present and accepted. *)
Definition unlocked (doc : Document) (pw : option string) : Prop :=
  needs_pass doc = false ∨
  ∃ s, pw = Some s ∧ s ≠ EmptyString ∧ authenticate doc s = true.

(** [c] with the exception it raises, if any, handed back as a value. *)
Definition attempt {A} (c : M A) : M (Exn + A) := λ w,
  let '(w', r) := c w in (w', inr r).

(** [page = doc.load_page(i); pix = page.get_pixmap(...); pix.save(out_png)] *)
Definition render_save (doc : Document) (i : nat) (zm : Matrix) (alpha : bool)
    (out_png : Path) : M unit :=
  page ← load_page doc i;
  pix ← get_pixmap page zm alpha;
  save pix out_png.

(** [f"{stem}.png"] and [f"{stem} - Pg {i+1}.png"] *)
Definition single_name (stem : string) : string := stem +:+ ".png".
Definition page_name (stem : string) (i : nat) : string :=
  stem +:+ " - Pg " +:+ pretty (i + 1)%nat +:+ ".png".

Definition skip_line (out_png : Path) : string :=
  "[SKIP] Exists (use --overwrite): " +:+ to_str out_png.
Definition render_warn_line (pdf_path : Path) (pg : nat) (e : Exn) : string :=
  "[WARN] Failed to render/save '" +:+ name pdf_path +:+ "' Pg "
    +:+ pretty pg +:+ ": " +:+ exn_str e.
Definition open_error_line (pdf_path : Path) (e : Exn) : string :=
  "[ERROR] Could not open '" +:+ name pdf_path +:+ "': " +:+ exn_str e.
Definition password_error_line (pdf_path : Path) : string :=
  "[ERROR] Password required/failed for '" +:+ name pdf_path +:+ "'. Skipping.".
Definition no_pages_line (pdf_path : Path) : string :=
  "[WARN] '" +:+ name pdf_path +:+ "' has 0 pages. Skipping.".
Definition ok_single_line (pdf_path out_png : Path) : string :=
  "[OK] " +:+ name pdf_path +:+ " -> " +:+ name out_png.
Definition ok_multi_line (pdf_path out_dir : Path) (n : nat) : string :=
  "[OK] " +:+ name pdf_path +:+ " -> " +:+ to_str out_dir
    +:+ "/(Pg 1.." +:+ pretty n +:+ ")".

(** [out_png = out_dir / f"{stem} - Pg {i+1}.png"] *)
Definition page_target (pdf_path out_dir : Path) (i : nat) : Path :=
  joinpath out_dir (page_name (stem pdf_path) i).

(** One turn of [for i in range(page_count)]. *)
Definition convert_page (doc : Document) (pdf_path out_dir : Path)
    (zm : Matrix) (overwrite alpha : bool) (i : nat) : M unit :=
  let out_png := page_target pdf_path out_dir i in
  ex ← exists_ out_png;
  if ex && negb overwrite then
    _say (skip_line out_png)                                    (* continue *)
  else
    try_except (render_save doc i zm alpha out_png)
      (λ e, _say (render_warn_line pdf_path (i + 1)%nat e)).    (* continue *)

(** The body of the outer [try:] of [convert_pdf]. *)
Definition convert_opened (doc : Document) (pdf_path : Path) (dpi : Z)
    (overwrite alpha : bool) (password : option string) : M unit :=
  if needs_pass doc && auth_fails doc password then
    _say (password_error_line pdf_path)
  else if bool_decide (page_count doc = 0%nat) then
    _say (no_pages_line pdf_path)
  else if float_overflow <=? Z.max dpi 1 then
    raise OverflowError
  else
    let zm := zoom dpi in
    let stm := stem pdf_path in
    let prnt := parent pdf_path in
    if bool_decide (page_count doc = 1%nat) then
      let out_png := joinpath prnt (single_name stm) in
      ex ← exists_ out_png;
      if ex && negb overwrite then
        _say (skip_line out_png)
      else
        r ← attempt (render_save doc 0 zm alpha out_png);
        match r with
        | inl e => _say (render_warn_line pdf_path 1 e)
        | inr _ => _say (ok_single_line pdf_path out_png)
        end
    else
      let out_dir := joinpath prnt stm in
      mkdir out_dir;;
      for_each (seq 0 (page_count doc))
        (convert_page doc pdf_path out_dir zm overwrite alpha);;
      _say (ok_multi_line pdf_path out_dir (page_count doc)).

Definition convert_pdf (pdf_path : Path) (dpi : Z) (overwrite alpha : bool)
    (password : option string) : M unit :=
  r ← attempt (pymupdf_open pdf_path);
  match r with
  | inl e => _say (open_error_line pdf_path e)
  | inr doc =>
      try_finally
        (convert_opened doc pdf_path dpi overwrite alpha password)
        (try_except (close doc) (λ _, mret tt))
  end.

(** ** cli.py *)

Record Args := {
  inputs : list string;
  dpi : Z;
  alpha : bool;
  overwrite : bool;
  password : option string
}.

(** [_main], from the parsed arguments on, with discovery returning its
    list (see [find_pdfs_call] for the inputs on which it raises). *)
Definition _main `{PathEnv} (args : Args) : M Z := λ w,
  let pdfs := find_pdfs (fs w) (inputs args) in
  match pdfs with
  | [] => (_say "[INFO] No PDFs found.";; mret 1) w
  | _ =>
      (for_each pdfs
         (λ pdf, convert_pdf pdf (dpi args) (overwrite args) (alpha args)
                   (password args));;
       mret 0) w
  end.

(** [raise SystemExit(_main())]: the status is what [_main] returns; an
    exception that escapes [_main] ends the interpreter with status 1. *)
Definition exit_status `{PathEnv} (args : Args) (w : World) : Z :=
  match (_main args w).2 with
  | inr code => code
  | inl _ => 1
  end.

(** ** gui.py *)

(** A string holds the UTF-8 bytes of the Python string.  The white space
    of [str.isspace] and [str.strip] is: U+0009 to U+000D, U+001C to
    U+0020, U+0085, U+00A0, U+1680, U+2000 to U+200A, U+2028, U+2029,
    U+202F, U+205F and U+3000; in UTF-8 one byte for the first two ranges,
    two bytes for the next two characters, three for the others. *)
Definition isspace (a : ascii) : bool :=
  let n := Ascii.N_of_ascii a in
  ((9 <=? n) && (n <=? 13) || (28 <=? n) && (n <=? 32))%N.

Definition isspace2 (a b : ascii) : bool :=
  let a := Ascii.N_of_ascii a in
  let b := Ascii.N_of_ascii b in
  ((a =? 194) && ((b =? 133) || (b =? 160)))%N.

Definition isspace3 (a b c : ascii) : bool :=
  let a := Ascii.N_of_ascii a in
  let b := Ascii.N_of_ascii b in
  let c := Ascii.N_of_ascii c in
  ((a =? 225) && (b =? 154) && (c =? 128)
   || (a =? 226) && (b =? 128)
      && ((128 <=? c) && (c <=? 138) || (c =? 168) || (c =? 169)
          || (c =? 175))
   || (a =? 226) && (b =? 129) && (c =? 159)
   || (a =? 227) && (b =? 128) && (c =? 128))%N.

(** [str.lstrip()] *)
Fixpoint lstrip (s : string) : string :=
  match s with
  | EmptyString => EmptyString
  | String a s1 =>
      if isspace a then lstrip s1
      else
        match s1 with
        | EmptyString => s
        | String b s2 =>
            if isspace2 a b then lstrip s2
            else
              match s2 with
              | EmptyString => s
              | String c s3 => if isspace3 a b c then lstrip s3 else s
              end
        end
  end.

(** [lstrip] on a string read from its end: the bytes of a character come
    last byte first. *)
Fixpoint lstrip_reversed (s : string) : string :=
  match s with
  | EmptyString => EmptyString
  | String a s1 =>
      if isspace a then lstrip_reversed s1
      else
        match s1 with
        | EmptyString => s
        | String b s2 =>
            if isspace2 b a then lstrip_reversed s2
            else
              match s2 with
              | EmptyString => s
              | String c s3 =>
                  if isspace3 c b a then lstrip_reversed s3 else s
              end
        end
  end.

(** [str.strip()] *)
Definition strip (s : string) : string :=
  String.rev (lstrip_reversed (String.rev (lstrip s))).

(** [password = self.password_var.get().strip() or None] in [App._start]. *)
Definition start_password (entry : string) : option string :=
  let s := strip entry in
  if bool_decide (s = EmptyString) then None else Some s.

(** ** A concrete machine for the examples *)

Module Sample.

(** Splitting an absolute POSIX path string at its slashes. *)
Fixpoint components_go (cur : string) (s : string) : Path :=
  let flush := if bool_decide (cur = EmptyString) then [] else [String.rev cur] in
  match s with
  | EmptyString => flush
  | String a s' =>
      if bool_decide (a = "/"%char) then flush ++ components_go EmptyString s'
      else components_go (String a cur) s'
  end.

(** Absolute inputs, no [~], no symbolic links: both resolutions only
    parse. *)
Definition posix : PathEnv :=
  {| expand_resolve := components_go EmptyString; resolve := id;
     input_error := λ _, None |}.


Definition one_page : Document :=
  {| needs_pass := false; authenticate := λ _, true;
     pages := [ {| page_art := 7; page_fault := None |} ] |}.

Definition two_pages : Document :=
  {| needs_pass := false; authenticate := λ _, true;
     pages := [ {| page_art := 1; page_fault := None |};
                {| page_art := 2; page_fault := None |} ] |}.

(** [/docs] holds a two-page [LICENSE.pdf] next to a plain-text
    [LICENSE], and a one-page [b.pdf]. *)
Definition obstructed_fs : gmap Path Node :=
  list_to_map
    [ ([], Dir);
      (["docs"], Dir);
      (["docs"; "LICENSE"], File (Other "MIT"));
      (["docs"; "LICENSE.pdf"], File (Pdf two_pages));
      (["docs"; "b.pdf"], File (Pdf one_page)) ].

Definition start (f : gmap Path Node) : World :=
  {| fs := f; log := []; handles := 0 |}.

Definition three_pages : Document :=
  {| needs_pass := false; authenticate := λ _, true;
     pages := [ {| page_art := 1; page_fault := None |};
                {| page_art := 2; page_fault := None |};
                {| page_art := 3; page_fault := None |} ] |}.

(** Encrypted, and PyMuPDF would accept any string for it, the empty one
    included. *)
Definition locked_open_to_all : Document :=
  {| needs_pass := true; authenticate := λ _, true;
     pages := [ {| page_art := 9; page_fault := None |} ] |}.

(** Two pages, neither of which renders. *)
Definition two_broken_pages : Document :=
  {| needs_pass := false; authenticate := λ _, true;
     pages := [ {| page_art := 1; page_fault := Some "bad xref" |};
                {| page_art := 2; page_fault := Some "bad xref" |} ] |}.

(** Two pages, the first of which does not render. *)
Definition first_page_broken : Document :=
  {| needs_pass := false; authenticate := λ _, true;
     pages := [ {| page_art := 1; page_fault := Some "bad xref" |};
                {| page_art := 2; page_fault := None |} ] |}.

Definition old_pixmap : Pixmap :=
  {| pix_art := 7; pix_matrix := Matrix_zoom (to_float 1) (to_float 1);
     pix_alpha := false |}.

(** [/docs]: a three-page [r.pdf]; a one-page [b.pdf] with its [b.png]
    from an earlier run; an encrypted [locked.pdf]; a damaged [bad.pdf]
    and a half-damaged [half.pdf]; [notes.txt]; and in [/docs/sub] a
    [Scan.PDF] and a file named just [.pdf]. *)
Definition docs_fs : gmap Path Node :=
  list_to_map
    [ ([], Dir);
      (["docs"], Dir);
      (["docs"; "r.pdf"], File (Pdf three_pages));
      (["docs"; "b.pdf"], File (Pdf one_page));
      (["docs"; "b.png"], File (Png old_pixmap));
      (["docs"; "locked.pdf"], File (Pdf locked_open_to_all));
      (["docs"; "bad.pdf"], File (Pdf two_broken_pages));
      (["docs"; "half.pdf"], File (Pdf first_page_broken));
      (["docs"; "notes.txt"], File (Other "todo"));
      (["docs"; "sub"], Dir);
      (["docs"; "sub"; "Scan.PDF"], File (Pdf one_page));
      (["docs"; "sub"; ".pdf"], File (Other "x")) ].

(** [obstructed_fs] with a directory standing where [b.png] would go,
    and a file in it. *)
Definition png_is_dir_fs : gmap Path Node :=
  <[["docs"; "b.png"; "keep.txt"] := File (Other "x")]>
    (<[["docs"; "b.png"] := Dir]> obstructed_fs).

(** [p.iterdir()]: the entries directly inside [p]. *)
Definition iterdir (f : gmap Path Node) (p : Path) : list Path :=
  filter (λ q, q ≠ [] ∧ parent q = p) (fst <$> map_to_list f).

Definition cli (ins : list string) (ov : bool) : Args :=
  {| inputs := ins; dpi := 600; alpha := false; overwrite := ov;
     password := None |}.

End Sample.


(** ** gui.py: the drop payload *)

(** The loop variables of [_split_dnd_paths]. *)
Record SplitState := {
  items : list string;
  token : string;
  brace : Z
}.

(** One turn of [for ch in data]. *)
Definition split_char (st : SplitState) (ch : ascii) : SplitState :=
  if bool_decide (ch = "{"%char) then
    {| items := items st; token := token st; brace := brace st + 1 |}
  else if bool_decide (ch = "}"%char) then
    {| items := items st; token := token st;
       brace := Z.max 0 (brace st - 1) |}
  else if bool_decide (ch = " "%char) && (brace st =? 0) then
    if bool_decide (token st ≠ EmptyString) then
      {| items := items st ++ [token st]; token := EmptyString;
         brace := brace st |}
    else st
  else
    {| items := items st; token := token st +:+ String ch EmptyString;
       brace := brace st |}.

Fixpoint split_loop (data : string) (st : SplitState) : SplitState :=
  match data with
  | EmptyString => st
  | String ch data' => split_loop data' (split_char st ch)
  end.

(** [items] when the loop and the final [if token:] are done. *)
Definition split_items (data : string) : list string :=
  let st := split_loop data
              {| items := []; token := EmptyString; brace := 0 |} in
  if bool_decide (token st ≠ EmptyString) then items st ++ [token st]
  else items st.

(** [return [Path(s.strip()).expanduser().resolve()
             for s in items if s.strip()]] *)
Definition _split_dnd_paths `{PathEnv} (data : string) : list Path :=
  (λ s, expand_resolve (strip s))
    <$> filter (λ s, strip s ≠ EmptyString) (split_items data).

(** No brace anywhere in [s]. *)
Definition clean (s : string) : Prop :=
  ∀ c, c ∈ String.list_ascii_of_string s → c ≠ "{"%char ∧ c ≠ "}"%char.

(** How tkinterdnd2 hands over file names, as the comment in
    [_split_dnd_paths] has it: separated by spaces, a name with a space in
    it wrapped in braces. *)
Definition has_space (s : string) : bool :=
  bool_decide (" "%char ∈ String.list_ascii_of_string s).
Definition dnd_item (s : string) : string :=
  if has_space s then "{" +:+ s +:+ "}" else s.
Fixpoint dnd_payload (names : list string) : string :=
  match names with
  | [] => EmptyString
  | [s] => dnd_item s
  | s :: rest => dnd_item s +:+ " " +:+ dnd_payload rest
  end.

(** ** gui.py: the target list *)

(** What [App] keeps of the targets: the list itself, the rows of the
    listbox, and whether the placeholder is placed over it. *)
Record App := {
  targets : list Path;
  listbox : list string;
  placeholder : bool
}.

(** [_refresh_targets]: empty the listbox, insert [str(p)] for every
    target at the end, then place or forget the placeholder. *)
Definition _refresh_targets (app : App) : App :=
  {| targets := targets app;
     listbox := foldl (λ rows p, rows ++ [to_str p]) [] (targets app);
     placeholder := bool_decide (targets app = []) |}.

Definition set_targets (tg : list Path) (app : App) : App :=
  {| targets := tg; listbox := listbox app; placeholder := placeholder app |}.

(** [_on_drop_files] *)
Definition _on_drop_files `{PathEnv} (fs : gmap Path Node) (data : string)
    (app : App) : App :=
  let r := foldl (λ (acc : list Path * bool) p,
                    if bool_decide (is_Some (fs !! p))
                       && bool_decide (p ∉ fst acc)
                    then (fst acc ++ [p], true) else acc)
                 (targets app, false) (_split_dnd_paths data) in
  if snd r then _refresh_targets (set_targets (fst r) app)
  else set_targets (fst r) app.

(** [_add_pdfs], with [paths] what the file dialog returned. *)
Definition _add_pdfs `{PathEnv} (fs : gmap Path Node) (paths : list string)
    (app : App) : App :=
  match paths with
  | [] => app
  | _ =>
      _refresh_targets
        (set_targets
           (foldl (λ tg s,
                     let p := expand_resolve s in
                     if is_file fs p
                        && bool_decide (lower (suffix p) = ".pdf")
                        && bool_decide (p ∉ tg)
                     then tg ++ [p] else tg)
                  (targets app) paths)
           app)
  end.

(** [_add_folder], with [folder] what the folder dialog returned. *)
Definition _add_folder `{PathEnv} (fs : gmap Path Node) (folder : string)
    (app : App) : App :=
  if bool_decide (folder = EmptyString) then app
  else
    let p := expand_resolve folder in
    _refresh_targets
      (if is_dir fs p && bool_decide (p ∉ targets app)
       then set_targets (targets app ++ [p]) app else app).

(** [del l[idx]] for [idx >= 0]: [None] stands for [IndexError]. *)
Definition del_at {A} (idx : nat) (l : list A) : option (list A) :=
  if bool_decide (idx < length l)%nat then Some (delete idx l) else None.

(** [_remove_selected], with [sel] what [listbox.curselection()] gave. *)
Definition _remove_selected (sel : list nat) (app : App) : option App :=
  match foldl (λ acc idx, acc ≫= del_at idx) (Some (targets app))
              (reverse sel) with
  | Some tg => Some (_refresh_targets (set_targets tg app))
  | None => None
  end.

(** [_clear_all] *)
Definition _clear_all (app : App) : App :=
  _refresh_targets (set_targets [] app).

(** [App.__init__] as far as the targets go: the list is copied, the
    interface is built with an empty listbox under the placeholder, and the
    listbox is filled. *)
Definition App_init (initial_targets : list Path) : App :=
  _refresh_targets
    {| targets := initial_targets; listbox := []; placeholder := true |}.

(** [main(argv)] up to the event loop. *)
Definition main `{PathEnv} (fs : gmap Path Node) (argv : list string) : App :=
  App_init
    (foldl (λ initial raw,
              let p := expand_resolve raw in
              if bool_decide (is_Some (fs !! p)) && bool_decide (p ∉ initial)
              then initial ++ [p] else initial)
           [] argv).

(** What the user can do to the target list. *)
Inductive Action :=
| DropFiles (data : string)
| AddPdfs (paths : list string)
| AddFolder (folder : string)
| RemoveSelected (sel : list nat)
| ClearAll.

(** The handler bound to each action, run against the file system of the
    moment. *)
Definition handle `{PathEnv} (fs : gmap Path Node) (a : Action) (app : App)
  : option App :=
  match a with
  | DropFiles data => Some (_on_drop_files fs data app)
  | AddPdfs paths => Some (_add_pdfs fs paths app)
  | AddFolder folder => Some (_add_folder fs folder app)
  | RemoveSelected sel => _remove_selected sel app
  | ClearAll => Some (_clear_all app)
  end.

(** The states of the interface: the one [main] starts in, and those a
    handler that returns leads to, whatever the file system is by then. *)
Inductive reachable `{PathEnv} : App → Prop :=
| reach_main fs argv : reachable (main fs argv)
| reach_step fs a app app' :
    reachable app → handle fs a app = Some app' → reachable app'.

(** The target list is in order: no path twice, the listbox shows the
    targets row for row, and the placeholder covers it exactly when there
    is none. *)
Definition tidy (app : App) : Prop :=
  NoDup (targets app) ∧
  listbox app = to_str <$> targets app ∧
  placeholder app = bool_decide (targets app = []).

(** [l] without the rows whose index, counted from [i], is in [sel]. *)
Fixpoint rows_without {A} (sel : list nat) (i : nat) (l : list A) : list A :=
  match l with
  | [] => []
  | x :: l' =>
      if bool_decide (i ∈ sel) then rows_without sel (S i) l'
      else x :: rows_without sel (S i) l'
  end.


(** ** gui.py: Start *)

(** [int(s)] for an ASCII string [s]: the white space of C's [isspace]
    around the literal, one sign, digits, single underscores between
    digits, and no more digits than [sys.get_int_max_str_digits()]. *)
Inductive IntScan := AtStart | AfterDigit | AfterUnderscore.

Definition c_isspace (a : ascii) : bool :=
  let n := Ascii.N_of_ascii a in
  ((9 <=? n) && (n <=? 13) || (n =? 32))%N.

Fixpoint int_lstrip (s : string) : string :=
  match s with
  | EmptyString => EmptyString
  | String a s' => if c_isspace a then int_lstrip s' else s
  end.

Definition int_strip (s : string) : string :=
  String.rev (int_lstrip (String.rev (int_lstrip s))).

(** The default limit of Python 3.11 and later. *)
Definition int_max_str_digits : nat := 4300.

Definition digit_of (c : ascii) : option Z :=
  let n := Ascii.N_of_ascii c in
  if ((48 <=? n) && (n <=? 57))%N then Some (Z.of_N n - 48) else None.

Fixpoint scan_digits (s : string) (prev : IntScan) (acc : Z) : option Z :=
  match s with
  | EmptyString => match prev with AfterDigit => Some acc | _ => None end
  | String c s' =>
      match digit_of c with
      | Some d => scan_digits s' AfterDigit (10 * acc + d)
      | None =>
          if bool_decide (c = "_"%char) then
            match prev with
            | AfterDigit => scan_digits s' AfterUnderscore acc
            | _ => None
            end
          else None
      end
  end.

Definition digits_in (s : string) : nat :=
  length (filter (λ c, is_Some (digit_of c)) (String.list_ascii_of_string s)).

(** [None] stands for [ValueError]. *)
Definition py_int (s : string) : option Z :=
  match int_strip s with
  | String c r =>
      let signed := bool_decide (c = "-"%char) || bool_decide (c = "+"%char) in
      let literal := if signed then r else String c r in
      if (int_max_str_digits <? digits_in literal)%nat then None
      else if bool_decide (c = "-"%char) then
        Z.opp <$> scan_digits literal AtStart 0
      else scan_digits literal AtStart 0
  | EmptyString => None
  end.

(** The message boxes of [tkinter.messagebox]. *)
Inductive Dialog :=
| showwarning (title message : string)
| showerror (title message : string)
| showinfo (title message : string).

(** How a press on Start ends: with a message box and nothing done, or
    with the batch run (to its end, or to the exception that left it). *)
Inductive Started :=
| Refused (box : Dialog)
| Ran (r : World * (Exn + unit)).

Definition found_line (n : nat) (dpi : Z) : string :=
  "Found " +:+ pretty n +:+ " PDF(s). Converting at " +:+ pretty dpi
    +:+ " DPI…".
Definition arrow_line (pdf : Path) : string := "→ " +:+ to_str pdf.
Definition done_line : string := "Done ✅".

(** [App._start]; [self.log] is the sink handed to [convert_pdf]. *)
Definition _start `{PathEnv} (app : App) (dpi_var : string)
    (alpha_var overwrite_var : bool) (password_var : string) (w : World)
  : Started :=
  match targets app with
  | [] =>
      Refused (showwarning "No targets"
                 "Please add at least one PDF or folder.")
  | _ =>
      match py_int dpi_var with
      | None =>
          Refused (showerror "Invalid DPI"
                     ("Invalid DPI value: " +:+ dpi_var))
      | Some dpi =>
          let password := start_password password_var in
          let all_pdfs := find_pdfs (fs w) (to_str <$> targets app) in
          match all_pdfs with
          | [] =>
              Refused (showinfo "No PDFs found"
                         "No PDFs were found in the selected targets.")
          | _ =>
              Ran ((_say (found_line (length all_pdfs) dpi);;
                    for_each all_pdfs
                      (λ pdf, _say (arrow_line pdf);;
                              convert_pdf pdf dpi overwrite_var alpha_var
                                password);;
                    _say done_line) w)
          end
      end
  end.

(** ** Ways of speaking about a computation *)

(** What [c] does to the file system, and how it ends, depends on the
    file system alone. *)
Definition fs_only {A} (c : M A) : Prop :=
  ∀ w1 w2, fs w1 = fs w2 →
    fs (c w1).1 = fs (c w2).1 ∧ (c w1).2 = (c w2).2.

(** [c] only appends to the log, and every line it appends has [P]. *)
Definition appends {A} (P : string → Prop) (c : M A) : Prop :=
  ∀ w, ∃ lines, log (c w).1 = log w ++ lines ∧ Forall P lines.


(** A status line: a level in brackets, then the text. *)
Definition tagged (line : string) : Prop :=
  ∃ level rest,
    level ∈ ["OK"; "SKIP"; "WARN"; "ERROR"] ∧
    line = "[" +:+ level +:+ "] " +:+ rest.

(** ** A second sample machine *)

Module Desk.
Import Sample.

(** One page, which does not render. *)
Definition torn : Document :=
  {| needs_pass := false; authenticate := λ _, true;
     pages := [ {| page_art := 4; page_fault := Some "bad xref" |} ] |}.

(** [/scans]: one-page documents only, one with a space in its name and
    one that does not render, and a text file. *)
Definition scans_fs : gmap Path Node :=
  list_to_map
    [ ([], Dir);
      (["scans"], Dir);
      (["scans"; "a.pdf"], File (Pdf one_page));
      (["scans"; "my file.pdf"], File (Pdf one_page));
      (["scans"; "torn.pdf"], File (Pdf torn));
      (["scans"; "notes.txt"], File (Other "todo")) ].

(** The window as [gui.py /scans/a.pdf /scans/notes.txt /scans] opens
    it. *)
Definition window : App :=
  @main posix scans_fs ["/scans/a.pdf"; "/scans/notes.txt"; "/scans"].

(** What Start runs on [window] at 300 DPI with the other options as the
    interface sets them at first. *)
Definition batch : M unit :=
  _say "Found 3 PDF(s). Converting at 300 DPI…";;
  for_each [ ["scans"; "a.pdf"]; ["scans"; "torn.pdf"];
             ["scans"; "my file.pdf"] ]
    (λ pdf, _say (arrow_line pdf);; convert_pdf pdf 300 false true None);;
  _say done_line.

End Desk.

(** * Properties *)

(** ** Running the monad *)

Ltac run :=
  unfold mbind, M_bind, mret, M_ret, attempt, try_except, try_finally,
    exists_, _say, raise in *; simpl in *.

Lemma for_each_app {A} (l1 l2 : list A) (body : A → M unit) (w : World) :
  for_each (l1 ++ l2) body w =
  match for_each l1 body w with
  | (w', inr _) => for_each l2 body w'
  | (w', inl e) => (w', inl e)
  end.
Proof.
  revert w; induction l1 as [|x l1 IH]; intros w; simpl.
  - reflexivity.
  - run. destruct (body x w) as [w1 [e|[]]]; [reflexivity|apply IH].
Qed.

(** A loop whose body never raises never raises, and carries along every
    property that each turn preserves. *)
Lemma for_each_inv {A} (P : World → Prop) (l : list A) (body : A → M unit) :
  (∀ x w, x ∈ l → P w → (body x w).2 = inr tt ∧ P (body x w).1) →
  ∀ w, P w → (for_each l body w).2 = inr tt ∧ P (for_each l body w).1.
Proof.
  induction l as [|x l IH]; intros Hbody w Hw; simpl.
  - done.
  - run. destruct (Hbody x w) as [Hr HP]; [left|done|].
    destruct (body x w) as [w1 [e|[]]]; simpl in *; [done|].
    apply IH; [|done]. intros y w' Hy. apply Hbody. by right.
Qed.

(** ** Opening and closing *)

Lemma convert_pdf_opened pdf_path dpi ov al pw doc w :
  fs w !! pdf_path = Some (File (Pdf doc)) →
  convert_pdf pdf_path dpi ov al pw w =
  let r := convert_opened doc pdf_path dpi ov al pw (set_handles S w) in
  (set_handles pred r.1, r.2).
Proof.
  intros Hdoc. unfold convert_pdf, pymupdf_open, close. run. rewrite Hdoc.
  by destruct (convert_opened _ _ _ _ _ _ _) as [w' r].
Qed.

Lemma convert_pdf_not_opened pdf_path dpi ov al pw w :
  (∀ doc, fs w !! pdf_path ≠ Some (File (Pdf doc))) →
  ∃ e, convert_pdf pdf_path dpi ov al pw w =
       (add_log (open_error_line pdf_path e) w, inr tt).
Proof.
  intros Hno. unfold convert_pdf, pymupdf_open. run.
  destruct (fs w !! pdf_path) as [[[doc| |]|]|] eqn:E; eauto.
  by destruct (Hno doc).
Qed.

Lemma unlocked_gate doc pw :
  unlocked doc pw → needs_pass doc && auth_fails doc pw = false.
Proof.
  intros [->|(s & -> & Hs & Hok)]; [done|].
  unfold auth_fails. rewrite bool_decide_eq_false_2, Hok by done.
  apply andb_false_r.
Qed.

(** ** Authentication *)






(** ** Single-page documents *)

Lemma float_overflow_above_one : 1 < float_overflow.
Proof. reflexivity. Qed.

Lemma in_range dpi :
  dpi < float_overflow → (float_overflow <=? Z.max dpi 1) = false.
Proof.
  intros Hdpi. pose proof float_overflow_above_one.
  apply Z.leb_gt. lia.
Qed.

Lemma out_of_range dpi :
  float_overflow ≤ dpi → (float_overflow <=? Z.max dpi 1) = true.
Proof. intros Hdpi. apply Z.leb_le. lia. Qed.

Lemma blocked_not_dir (f : gmap Path Node) p :
  f !! p ≠ Some Dir → blocked f p = false.
Proof.
  intros Hp. unfold blocked, is_dir. by destruct (f !! p) as [[|]|].
Qed.

Lemma convert_opened_single doc pg pdf_path dpi ov al pw w :
  needs_pass doc && auth_fails doc pw = false →
  dpi < float_overflow →
  pages doc = [pg] →
  convert_opened doc pdf_path dpi ov al pw w =
  let out_png := joinpath (parent pdf_path) (single_name (stem pdf_path)) in
  if bool_decide (is_Some (fs w !! out_png)) && negb ov then
    (add_log (skip_line out_png) w, inr tt)
  else
    match page_fault pg with
    | Some msg =>
        (add_log (render_warn_line pdf_path 1 (RuntimeError msg)) w, inr tt)
    | None =>
        if blocked (fs w) out_png then
          (add_log (render_warn_line pdf_path 1
                      (RuntimeError (cannot_remove out_png))) w, inr tt)
        else
          (add_log (ok_single_line pdf_path out_png)
             (set_fs <[out_png := File (Png {| pix_art := page_art pg;
                                               pix_matrix := zoom dpi;
                                               pix_alpha := al |})]> w),
           inr tt)
    end.
Proof.
  intros Hgate Hdpi Hpages. unfold convert_opened, page_count.
  rewrite Hgate, Hpages, (in_range dpi Hdpi). simpl. run.
  destruct (bool_decide _ && negb ov); [done|].
  unfold render_save, load_page, get_pixmap, save. rewrite Hpages. run.
  destruct (page_fault pg); [done|].
  by destruct (blocked _ _).
Qed.


(** ** Multi-page documents *)

Lemma convert_page_run doc pdf_path out_dir zm ov al i w :
  convert_page doc pdf_path out_dir zm ov al i w =
  let out_png := page_target pdf_path out_dir i in
  if bool_decide (is_Some (fs w !! out_png)) && negb ov then
    (add_log (skip_line out_png) w, inr tt)
  else
    match pages doc !! i with
    | None =>
        (add_log (render_warn_line pdf_path (i + 1)
                    (RuntimeError "page not in document")) w, inr tt)
    | Some pg =>
        match page_fault pg with
        | Some msg =>
            (add_log (render_warn_line pdf_path (i + 1) (RuntimeError msg)) w,
             inr tt)
        | None =>
            if blocked (fs w) out_png then
              (add_log (render_warn_line pdf_path (i + 1)
                          (RuntimeError (cannot_remove out_png))) w, inr tt)
            else
              (set_fs <[out_png := File (Png {| pix_art := page_art pg;
                                                pix_matrix := zm;
                                                pix_alpha := al |})]> w,
               inr tt)
        end
    end.
Proof.
  unfold convert_page. run.
  destruct (bool_decide _ && negb ov); [done|].
  unfold render_save, load_page, get_pixmap, save. run.
  destruct (pages doc !! i) as [pg|]; [|done].
  destruct (page_fault pg); [done|].
  by destruct (blocked _ _).
Qed.

(** A turn of the page loop always comes back: every failure in it is
    caught there. *)
Lemma convert_page_returns doc pdf_path out_dir zm ov al i w :
  (convert_page doc pdf_path out_dir zm ov al i w).2 = inr tt.
Proof.
  rewrite convert_page_run. simpl.
  repeat (case_match; simpl; try done).
Qed.

Lemma convert_page_frame doc pdf_path out_dir zm ov al i w q :
  q ≠ page_target pdf_path out_dir i →
  fs (convert_page doc pdf_path out_dir zm ov al i w).1 !! q = fs w !! q.
Proof.
  intros Hq. rewrite convert_page_run. simpl.
  repeat (case_match; simpl; try done); by rewrite lookup_insert_ne.
Qed.

Lemma convert_page_handles doc pdf_path out_dir zm ov al i w :
  handles (convert_page doc pdf_path out_dir zm ov al i w).1 = handles w.
Proof.
  rewrite convert_page_run. simpl.
  repeat (case_match; simpl; try done).
Qed.

(** *** Page file names are pairwise distinct *)

Lemma list_ascii_of_string_app (s t : string) :
  String.list_ascii_of_string (s +:+ t) =
  String.list_ascii_of_string s ++ String.list_ascii_of_string t.
Proof. induction s as [|a s IH]; simpl; [done|by rewrite IH]. Qed.

Lemma string_app_inj_r (s1 s2 t : string) : s1 +:+ t = s2 +:+ t → s1 = s2.
Proof.
  intros Heq. apply (f_equal String.list_ascii_of_string) in Heq.
  rewrite !list_ascii_of_string_app in Heq.
  apply app_inv_tail in Heq.
  rewrite <- (String.string_of_list_ascii_of_string s1),
          <- (String.string_of_list_ascii_of_string s2).
  by rewrite Heq.
Qed.

Lemma page_name_inj stm i j : page_name stm i = page_name stm j → i = j.
Proof.
  unfold page_name. intros Heq.
  apply String.app_inj in Heq. apply String.app_inj in Heq.
  apply string_app_inj_r in Heq. apply pretty_nat_inj in Heq. lia.
Qed.

Lemma page_target_inj pdf_path out_dir i j :
  page_target pdf_path out_dir i = page_target pdf_path out_dir j → i = j.
Proof.
  unfold page_target, joinpath. intros Heq.
  apply app_inv_head in Heq. injection Heq as Heq.
  by apply page_name_inj in Heq.
Qed.

Lemma page_target_below pdf_path out_dir i :
  page_target pdf_path out_dir i ≠ out_dir.
Proof.
  unfold page_target, joinpath. intros Heq.
  apply (f_equal length) in Heq. rewrite length_app in Heq. simpl in Heq. lia.
Qed.

(** *** mkdir *)

Lemma snoc_app {A} (base : list A) (c : A) (rest : list A) :
  base ++ c :: rest = (base ++ [c]) ++ rest.
Proof. by rewrite <- app_assoc. Qed.

Lemma mkdir_from_frame rest : ∀ base f f1,
  mkdir_from base rest f = inr f1 →
  ∀ q, f1 !! q = f !! q ∨
       (f !! q = None ∧ f1 !! q = Some Dir ∧ q `prefix_of` base ++ rest).
Proof.
  induction rest as [|c rest IH]; intros base f f1 Hrun q; simpl in Hrun.
  - left. by injection Hrun as ->.
  - destruct (f !! (base ++ [c])) as [[|]|] eqn:E; [done| |].
    + destruct (IH _ _ _ Hrun q) as [?|(?&?&Hp)]; [by left|right].
      by rewrite <- app_assoc in Hp.
    + destruct (IH _ _ _ Hrun q) as [Hq|(Hq&?&Hp)].
      * destruct (decide (q = base ++ [c])) as [->|Hne].
        -- right. rewrite lookup_insert_eq in Hq.
           split; [done|]. split; [exact Hq|].
           rewrite (snoc_app base c rest). by exists rest.
        -- left. by rewrite lookup_insert_ne in Hq.
      * right. rewrite <- app_assoc in Hp.
        destruct (decide (q = base ++ [c])) as [->|Hne].
        -- by rewrite lookup_insert_eq in Hq.
        -- by rewrite lookup_insert_ne in Hq.
Qed.

Lemma mkdir_from_makes rest : ∀ base f f1,
  mkdir_from base rest f = inr f1 → rest ≠ [] →
  f1 !! (base ++ rest) = Some Dir.
Proof.
  induction rest as [|c rest IH]; intros base f f1 Hrun Hne; [done|].
  simpl in Hrun.
  destruct (f !! (base ++ [c])) as [[|]|] eqn:E; [done| |].
  - destruct rest as [|c' rest].
    + simpl in Hrun. by injection Hrun as <-.
    + rewrite (snoc_app base c (c' :: rest)). by apply (IH _ f).
  - destruct rest as [|c' rest].
    + simpl in Hrun. injection Hrun as <-. by rewrite lookup_insert_eq.
    + rewrite (snoc_app base c (c' :: rest)). by eapply IH.
Qed.

(** What stands in the way of [mkdir]: a regular file at the path or at
    one of its ancestors. *)
Lemma mkdir_from_raises rest : ∀ base f e,
  mkdir_from base rest f = inl e →
  ∃ q c, q `prefix_of` base ++ rest ∧ f !! q = Some (File c).
Proof.
  induction rest as [|c rest IH]; intros base f e Hrun; [done|].
  simpl in Hrun.
  destruct (f !! (base ++ [c])) as [[c0|]|] eqn:E.
  - exists (base ++ [c]), c0. split; [|done].
    rewrite (snoc_app base c rest). by exists rest.
  - destruct (IH _ _ _ Hrun) as (q & c0 & Hp & Hq).
    exists q, c0. by rewrite <- app_assoc in Hp.
  - destruct (IH _ _ _ Hrun) as (q & c0 & Hp & Hq).
    exists q, c0. rewrite <- app_assoc in Hp. split; [done|].
    destruct (decide (q = base ++ [c])) as [->|Hne].
    + by rewrite lookup_insert_eq in Hq.
    + by rewrite lookup_insert_ne in Hq.
Qed.

Lemma convert_opened_overflow doc pdf_path dpi ov al pw w :
  needs_pass doc && auth_fails doc pw = false →
  pages doc ≠ [] →
  float_overflow ≤ dpi →
  convert_opened doc pdf_path dpi ov al pw w = (w, inl OverflowError).
Proof.
  intros Hgate Hpages Hdpi. unfold convert_opened, page_count.
  rewrite Hgate, (out_of_range dpi Hdpi).
  rewrite bool_decide_eq_false_2; [done|].
  by destruct (pages doc).
Qed.

Lemma convert_opened_multi doc pdf_path dpi ov al pw w :
  needs_pass doc && auth_fails doc pw = false →
  dpi < float_overflow →
  (1 < page_count doc)%nat →
  convert_opened doc pdf_path dpi ov al pw w =
  let out_dir := joinpath (parent pdf_path) (stem pdf_path) in
  match mkdir_from [] out_dir (fs w) with
  | inl e => (w, inl e)
  | inr f1 =>
      (add_log (ok_multi_line pdf_path out_dir (page_count doc))
         (for_each (seq 0 (page_count doc))
            (convert_page doc pdf_path out_dir (zoom dpi) ov al)
            (set_fs (λ _, f1) w)).1,
       inr tt)
  end.
Proof.
  intros Hgate Hdpi Hn. unfold convert_opened.
  rewrite Hgate, (in_range dpi Hdpi).
  rewrite !bool_decide_eq_false_2 by lia.
  unfold mkdir. run.
  destruct (mkdir_from _ _ _) as [e|f1]; [done|].
  pose proof (for_each_inv (λ _, True) (seq 0 (page_count doc))
    (convert_page doc pdf_path (joinpath (parent pdf_path) (stem pdf_path))
       (zoom dpi) ov al)) as Hloop.
  destruct (Hloop (λ x w' _ _, conj (convert_page_returns _ _ _ _ _ _ x w') I)
              (set_fs (λ _, f1) w) I) as [Hr _].
  destruct (for_each _ _ _) as [w1 [e|[]]]; simpl in *; done.
Qed.

Section PageLoop.
Variables (doc : Document) (pdf_path out_dir : Path) (zm : Matrix).
Variables (ov al : bool).

Local Abbreviation turn := (convert_page doc pdf_path out_dir zm ov al).
Local Abbreviation target := (page_target pdf_path out_dir).

Lemma page_loop_returns (l : list nat) (w : World) :
  (for_each l turn w).2 = inr tt.
Proof.
  apply (for_each_inv (λ _, True)); [|done].
  intros i w' _ _. split; [apply convert_page_returns|done].
Qed.

(** The loop touches nothing but the targets of the pages it visits. *)
Lemma page_loop_frame (l : list nat) (w : World) (q : Path) :
  (∀ i, i ∈ l → q ≠ target i) →
  fs (for_each l turn w).1 !! q = fs w !! q.
Proof.
  intros Hq.
  apply (for_each_inv (λ w', fs w' !! q = fs w !! q)); [|done].
  intros i w' Hi Hw'. split; [apply convert_page_returns|].
  rewrite convert_page_frame; [done|by apply Hq].
Qed.

Lemma page_loop_handles (l : list nat) (w : World) :
  handles (for_each l turn w).1 = handles w.
Proof.
  apply (for_each_inv (λ w', handles w' = handles w)); [|done].
  intros i w' Hi Hw'. split; [apply convert_page_returns|].
  by rewrite convert_page_handles.
Qed.

(** A page that is to be written and renders is on disk after its turn. *)
Lemma convert_page_writes (i : nat) (pg : Page) (w : World) :
  pages doc !! i = Some pg →
  page_fault pg = None →
  fs w !! target i = None ∨ (ov = true ∧ fs w !! target i ≠ Some Dir) →
  fs (turn i w).1 !! target i =
    Some (File (Png {| pix_art := page_art pg; pix_matrix := zm;
                       pix_alpha := al |})).
Proof.
  intros Hpg Hfault Hfree. rewrite convert_page_run. simpl.
  rewrite Hpg, Hfault.
  destruct Hfree as [Hnone|[-> Hnd]].
  - rewrite blocked_not_dir by (by rewrite Hnone).
    rewrite Hnone. rewrite bool_decide_eq_false_2 by (by intros [? ?]).
    simpl. by rewrite lookup_insert_eq.
  - rewrite andb_false_r, blocked_not_dir by done.
    simpl. by rewrite lookup_insert_eq.
Qed.

(** ... and stays there: the later pages write elsewhere. *)
Lemma page_loop_writes (l1 l2 : list nat) (i : nat) (pg : Page) (w : World) :
  i ∉ l1 → i ∉ l2 →
  pages doc !! i = Some pg →
  page_fault pg = None →
  fs w !! target i = None ∨ (ov = true ∧ fs w !! target i ≠ Some Dir) →
  fs (for_each (l1 ++ i :: l2) turn w).1 !! target i =
    Some (File (Png {| pix_art := page_art pg; pix_matrix := zm;
                       pix_alpha := al |})).
Proof.
  intros Hl1 Hl2 Hpg Hfault Hfree.
  assert (∀ l : list nat, i ∉ l → ∀ j, j ∈ l → target i ≠ target j) as Hother.
  { intros l Hl j Hj Heq. apply page_target_inj in Heq. by subst. }
  rewrite for_each_app.
  pose proof (page_loop_returns l1 w) as Hr1.
  pose proof (page_loop_frame l1 w (target i) (Hother l1 Hl1)) as Hf1.
  destruct (for_each l1 turn w) as [w1 [e|[]]]; simpl in *; [done|].
  run.
  pose proof (convert_page_returns doc pdf_path out_dir zm ov al i w1) as Hr2.
  pose proof (convert_page_writes i pg w1 Hpg Hfault) as Hw2.
  rewrite Hf1 in Hw2. specialize (Hw2 Hfree).
  destruct (turn i w1) as [w2 [e|[]]]; simpl in *; [done|].
  by rewrite (page_loop_frame l2 w2 (target i) (Hother l2 Hl2)).
Qed.

(** When every page is skipped or fails, the loop writes nothing. *)
Lemma page_loop_idle (l : list nat) (w : World) :
  (∀ i, i ∈ l →
     (is_Some (fs w !! target i) ∧ ov = false) ∨
     (∀ pg, pages doc !! i = Some pg → is_Some (page_fault pg))) →
  fs (for_each l turn w).1 = fs w.
Proof.
  intros Hidle.
  apply (for_each_inv (λ w', fs w' = fs w)); [|done].
  intros i w' Hi Hw'. split; [apply convert_page_returns|].
  rewrite convert_page_run. simpl. rewrite Hw'.
  destruct (Hidle i Hi) as [[Hex ->]|Hfault].
  - by rewrite bool_decide_eq_true_2.
  - destruct (bool_decide _ && negb ov); [done|].
    destruct (pages doc !! i) as [pg|] eqn:Hpg; [|done].
    destruct (Hfault pg eq_refl) as [msg ->]. done.
Qed.

(** Whatever the loop leaves in the file system was there before, or is
    a page rendered through [zm]. *)
Lemma page_loop_pixmaps (l : list nat) (w : World) (q : Path) (n : Node) :
  fs (for_each l turn w).1 !! q = Some n →
  fs w !! q = Some n ∨
  ∃ pix, n = File (Png pix) ∧ pix_matrix pix = zm ∧ pix_alpha pix = al.
Proof.
  revert n.
  apply (for_each_inv (λ w', ∀ n, fs w' !! q = Some n →
    fs w !! q = Some n ∨
    ∃ pix, n = File (Png pix) ∧ pix_matrix pix = zm ∧ pix_alpha pix = al));
    [|by left].
  intros i w' Hi Hw'. split; [apply convert_page_returns|].
  intros n. rewrite convert_page_run. simpl.
  repeat (case_match; simpl; try apply Hw').
  all: rewrite lookup_insert; case_decide; [|apply Hw'].
  all: intros [= <-]; right; by eexists.
Qed.

End PageLoop.

Lemma seq_split_at (n i : nat) :
  (i < n)%nat → seq 0 n = seq 0 i ++ i :: seq (S i) (n - S i).
Proof.
  intros Hi. assert (n = i + S (n - S i))%nat as Hn by lia.
  rewrite Hn at 1. by rewrite seq_app.
Qed.

Lemma convert_pdf_multi pdf_path dpi ov al pw doc w f1 :
  fs w !! pdf_path = Some (File (Pdf doc)) →
  unlocked doc pw →
  dpi < float_overflow →
  (1 < page_count doc)%nat →
  mkdir_from [] (joinpath (parent pdf_path) (stem pdf_path)) (fs w) = inr f1 →
  convert_pdf pdf_path dpi ov al pw w =
  (set_handles pred
     (add_log (ok_multi_line pdf_path (joinpath (parent pdf_path) (stem pdf_path))
                 (page_count doc))
        (for_each (seq 0 (page_count doc))
           (convert_page doc pdf_path (joinpath (parent pdf_path) (stem pdf_path))
              (zoom dpi) ov al)
           (set_fs (λ _, f1) (set_handles S w))).1),
   inr tt).
Proof.
  intros Hdoc Hopen Hdpi Hn Hmk.
  rewrite (convert_pdf_opened _ _ _ _ _ doc) by done.
  rewrite convert_opened_multi by (by apply unlocked_gate || done).
  simpl. by rewrite Hmk.
Qed.


Lemma multi_page_layout_parts pdf_path dpi ov al pw doc w f1 :
  fs w !! pdf_path = Some (File (Pdf doc)) →
  unlocked doc pw →
  dpi < float_overflow →
  (1 < page_count doc)%nat →
  mkdir_from [] (joinpath (parent pdf_path) (stem pdf_path)) (fs w) = inr f1 →
  fs (convert_pdf pdf_path dpi ov al pw w).1
    !! joinpath (parent pdf_path) (stem pdf_path) = Some Dir ∧
  (∀ q,
     (∀ N, (1 ≤ N ≤ page_count doc)%nat →
        q ≠ joinpath (joinpath (parent pdf_path) (stem pdf_path))
              (stem pdf_path +:+ " - Pg " +:+ pretty N +:+ ".png")) →
     fs (convert_pdf pdf_path dpi ov al pw w).1 !! q = f1 !! q) ∧
  (∀ i pg,
     pages doc !! i = Some pg →
     page_fault pg = None →
     f1 !! page_target pdf_path (joinpath (parent pdf_path) (stem pdf_path)) i
       = None ∨
     (ov = true ∧
      f1 !! page_target pdf_path (joinpath (parent pdf_path) (stem pdf_path)) i
        ≠ Some Dir) →
     fs (convert_pdf pdf_path dpi ov al pw w).1
       !! page_target pdf_path (joinpath (parent pdf_path) (stem pdf_path)) i
     = Some (File (Png {| pix_art := page_art pg; pix_matrix := zoom dpi;
                          pix_alpha := al |}))).
Proof.
  intros Hdoc Hopen Hdpi Hn Hmk.
  rewrite (convert_pdf_multi _ _ _ _ _ doc w f1) by done. simpl.
  split; [|split].
  - rewrite page_loop_frame; simpl.
    + apply (mkdir_from_makes _ [] (fs w)); [done|].
      unfold joinpath. by destruct (parent pdf_path).
    + intros i _ Heq. symmetry in Heq. by apply page_target_below in Heq.
  - intros q Hq. rewrite page_loop_frame; [done|].
    intros i Hi%elem_of_seq. apply (Hq (i + 1)%nat). lia.
  - intros i pg Hpg Hfault Hfree.
    assert (i < page_count doc)%nat as Hi by (by eapply lookup_lt_Some).
    rewrite (seq_split_at (page_count doc) i Hi).
    apply page_loop_writes; try done.
    + rewrite elem_of_seq. lia.
    + rewrite elem_of_seq. lia.
Qed.

(** C5: for a document of more than one page, at a DPI that converts to
    a float and with a [plain] stem (not [.] or [..]), with nothing in the
    way of the directory: afterwards the sibling [<stem>] is a directory
    (made or reused); apart from what [mkdir] made, the only paths that
    can differ are [<stem>/<stem> - Pg N.png] for N from 1 to the page
    count; each page that renders and whose target is free (or may be
    overwritten) is on disk under that name, rendered at the requested
    zoom and alpha; and if the directory held nothing before and every
    page renders, it holds exactly those files afterwards. *)
Theorem multi_page_layout pdf_path dpi ov al pw doc w f1 :
  fs w !! pdf_path = Some (File (Pdf doc)) →
  unlocked doc pw →
  dpi < float_overflow →
  plain (stem pdf_path) →
  (1 < page_count doc)%nat →
  mkdir_from [] (joinpath (parent pdf_path) (stem pdf_path)) (fs w) = inr f1 →
  fs (convert_pdf pdf_path dpi ov al pw w).1
    !! joinpath (parent pdf_path) (stem pdf_path) = Some Dir ∧
  (∀ q,
     (∀ N, (1 ≤ N ≤ page_count doc)%nat →
        q ≠ joinpath (joinpath (parent pdf_path) (stem pdf_path))
              (stem pdf_path +:+ " - Pg " +:+ pretty N +:+ ".png")) →
     fs (convert_pdf pdf_path dpi ov al pw w).1 !! q = f1 !! q) ∧
  (∀ i pg,
     pages doc !! i = Some pg →
     page_fault pg = None →
     f1 !! page_target pdf_path (joinpath (parent pdf_path) (stem pdf_path)) i
       = None ∨
     (ov = true ∧
      f1 !! page_target pdf_path (joinpath (parent pdf_path) (stem pdf_path)) i
        ≠ Some Dir) →
     fs (convert_pdf pdf_path dpi ov al pw w).1
       !! page_target pdf_path (joinpath (parent pdf_path) (stem pdf_path)) i
     = Some (File (Png {| pix_art := page_art pg; pix_matrix := zoom dpi;
                          pix_alpha := al |}))) ∧
  ((∀ q, joinpath (parent pdf_path) (stem pdf_path) `prefix_of` q →
         q ≠ joinpath (parent pdf_path) (stem pdf_path) →
         fs w !! q = None) →
   (∀ pg, pg ∈ pages doc → page_fault pg = None) →
   ∀ q, joinpath (parent pdf_path) (stem pdf_path) `prefix_of` q →
        q ≠ joinpath (parent pdf_path) (stem pdf_path) →
        (is_Some (fs (convert_pdf pdf_path dpi ov al pw w).1 !! q) ↔
         ∃ N, (1 ≤ N ≤ page_count doc)%nat ∧
              q = joinpath (joinpath (parent pdf_path) (stem pdf_path))
                    (stem pdf_path +:+ " - Pg " +:+ pretty N +:+ ".png"))).
Proof.
  intros Hdoc Hopen Hdpi _ Hn Hmk.
  destruct (multi_page_layout_parts pdf_path dpi ov al pw doc w f1)
    as (Hdir & Hframe & Hpages); try done.
  split; [done|]. split; [done|]. split; [done|].
  intros Hfresh Hrender.
  set (out_dir := joinpath (parent pdf_path) (stem pdf_path)) in *.
  assert (∀ q, out_dir `prefix_of` q → q ≠ out_dir → f1 !! q = None) as Hf1.
  { intros q Hq Hne.
    destruct (mkdir_from_frame _ _ _ _ Hmk q) as [->|(_ & _ & Hback)];
      [by apply Hfresh|].
    simpl in Hback. destruct Hne. by apply (anti_symm prefix). }
  intros q Hq Hne. split.
  - intros Hsome.
    destruct (decide (q ∈ page_target pdf_path out_dir <$> seq 0 (page_count doc)))
      as [Hin|Hnotin].
    + apply list_elem_of_fmap in Hin as (i & -> & Hi%elem_of_seq).
      exists (i + 1)%nat. split; [lia|done].
    + exfalso. rewrite Hframe in Hsome.
      * rewrite Hf1 in Hsome by done. by destruct Hsome.
      * intros N HN ->. apply Hnotin. apply list_elem_of_fmap.
        exists (N - 1)%nat. split.
        -- unfold page_target, page_name.
           by replace (N - 1 + 1)%nat with N by lia.
        -- apply elem_of_seq. lia.
  - intros (N & HN & ->).
    destruct (lookup_lt_is_Some_2 (pages doc) (N - 1)) as [pg Hpg];
      [unfold page_count in HN; lia|].
    assert (joinpath out_dir
              (stem pdf_path +:+ " - Pg " +:+ pretty N +:+ ".png")
            = page_target pdf_path out_dir (N - 1)) as Htarget.
    { unfold page_target, page_name. by replace (N - 1 + 1)%nat with N by lia. }
    rewrite Htarget in *.
    rewrite (Hpages (N - 1)%nat pg Hpg); [done| |].
    + apply Hrender. by eapply list_elem_of_lookup_2.
    + left. by apply Hf1.
Qed.

(** ** The whole call, case by case *)

Lemma gate_unlocked doc pw :
  needs_pass doc && auth_fails doc pw = false → unlocked doc pw.
Proof.
  unfold unlocked, auth_fails. destruct (needs_pass doc); [|by left].
  simpl. destruct pw as [s|]; [|done]. case_bool_decide; [done|].
  intros Hok%negb_false_iff. right. by exists s.
Qed.

(** Every run of [convert_pdf] is of one of five kinds: nothing written
    (open error, password error, no pages, skip, render failure); the one
    page of a one-page document written; the page loop of a longer
    document run to its end; [mkdir] raising out of the call; or the
    conversion of the DPI to a float raising out of it. *)
Lemma convert_pdf_cases pdf_path dpi ov al pw w :
  let r := convert_pdf pdf_path dpi ov al pw w in
  (fs r.1 = fs w ∧ r.2 = inr tt) ∨
  (∃ pix, fs r.1 = <[joinpath (parent pdf_path) (single_name (stem pdf_path))
                     := File (Png pix)]> (fs w) ∧
          pix_matrix pix = zoom dpi ∧ pix_alpha pix = al ∧ r.2 = inr tt) ∨
  (∃ doc f1,
     fs w !! pdf_path = Some (File (Pdf doc)) ∧ unlocked doc pw ∧
     (1 < page_count doc)%nat ∧
     mkdir_from [] (joinpath (parent pdf_path) (stem pdf_path)) (fs w)
       = inr f1 ∧
     fs r.1 = fs (for_each (seq 0 (page_count doc))
                    (convert_page doc pdf_path
                       (joinpath (parent pdf_path) (stem pdf_path))
                       (zoom dpi) ov al)
                    (set_fs (λ _, f1) (set_handles S w))).1 ∧
     r.2 = inr tt) ∨
  (∃ doc e,
     fs w !! pdf_path = Some (File (Pdf doc)) ∧ unlocked doc pw ∧
     (1 < page_count doc)%nat ∧
     mkdir_from [] (joinpath (parent pdf_path) (stem pdf_path)) (fs w)
       = inl e ∧
     fs r.1 = fs w ∧ log r.1 = log w ∧ r.2 = inl e) ∨
  (float_overflow ≤ dpi ∧
   fs r.1 = fs w ∧ log r.1 = log w ∧ r.2 = inl OverflowError).
Proof.
  intros r. subst r.
  destruct (fs w !! pdf_path) as [[[doc| |]|]|] eqn:Hdoc.
  2-5: destruct (convert_pdf_not_opened pdf_path dpi ov al pw w) as [e ->];
       [intros doc; by rewrite Hdoc|by left].
  destruct (needs_pass doc && auth_fails doc pw) eqn:Hgate.
  { left. rewrite (convert_pdf_opened _ _ _ _ _ doc) by done.
    unfold convert_opened. by rewrite Hgate. }
  destruct (pages doc) as [|pg rest] eqn:Hpages.
  { left. rewrite (convert_pdf_opened _ _ _ _ _ doc) by done.
    unfold convert_opened, page_count. by rewrite Hgate, Hpages. }
  destruct (decide (dpi < float_overflow)) as [Hdpi|Hdpi].
  2: { do 4 right. rewrite (convert_pdf_opened _ _ _ _ _ doc) by done.
       rewrite convert_opened_overflow; [|done|by rewrite Hpages|lia].
       split; [lia|done]. }
  destruct rest as [|pg' rest].
  - rewrite (convert_pdf_opened _ _ _ _ _ doc) by done.
    rewrite (convert_opened_single doc pg) by done. simpl.
    destruct (bool_decide _ && negb ov); [by left|].
    destruct (page_fault pg); [by left|].
    destruct (blocked _ _); [by left|].
    right; left; eexists; repeat split; reflexivity.
  - assert (1 < page_count doc)%nat as Hn
      by (unfold page_count; rewrite Hpages; simpl; lia).
    pose proof (gate_unlocked _ _ Hgate) as Hopen.
    destruct (mkdir_from [] (joinpath (parent pdf_path) (stem pdf_path)) (fs w))
      as [e|f1] eqn:Hmk.
    + do 3 right. left. exists doc, e.
      rewrite (convert_pdf_opened _ _ _ _ _ doc) by done.
      rewrite convert_opened_multi by done. simpl. by rewrite Hmk.
    + do 2 right. left. exists doc, f1.
      by rewrite (convert_pdf_multi _ _ _ _ _ doc w f1).
Qed.

(** X3: on every way out, the exceptional one included, the document
    that was opened has been closed: as many handles are open after the
    call as before it. *)
Lemma convert_pdf_closes pdf_path dpi ov al pw w :
  handles (convert_pdf pdf_path dpi ov al pw w).1 = handles w.
Proof.
  destruct (fs w !! pdf_path) as [[[doc| |]|]|] eqn:Hdoc.
  2-5: destruct (convert_pdf_not_opened pdf_path dpi ov al pw w) as [e ->];
       [intros doc; by rewrite Hdoc|done].
  rewrite (convert_pdf_opened _ _ _ _ _ doc) by done.
  destruct (needs_pass doc && auth_fails doc pw) eqn:Hgate.
  { unfold convert_opened. by rewrite Hgate. }
  destruct (pages doc) as [|pg rest] eqn:Hpages.
  { unfold convert_opened, page_count. by rewrite Hgate, Hpages. }
  destruct (decide (dpi < float_overflow)) as [Hdpi|Hdpi].
  2: { rewrite convert_opened_overflow; [done|done|by rewrite Hpages|lia]. }
  destruct rest as [|pg' rest].
  - rewrite (convert_opened_single doc pg) by done. simpl.
    destruct (bool_decide _ && negb ov); [done|].
    destruct (page_fault pg); [done|].
    by destruct (blocked _ _).
  - assert (1 < page_count doc)%nat as Hn
      by (unfold page_count; rewrite Hpages; simpl; lia).
    rewrite convert_opened_multi by done. simpl.
    destruct (mkdir_from [] (joinpath (parent pdf_path) (stem pdf_path)) (fs w))
      as [e|f1]; [done|].
    simpl. by rewrite page_loop_handles.
Qed.

(** In the model, below the float range, the only exception that leaves
    [convert_pdf] is the one [mkdir] raises when a regular file stands at
    the output directory of a multi-page document, or at one of its
    ancestors. *)
Lemma convert_pdf_raises pdf_path dpi ov al pw w e :
  dpi < float_overflow →
  (convert_pdf pdf_path dpi ov al pw w).2 = inl e →
  ∃ doc q c,
    fs w !! pdf_path = Some (File (Pdf doc)) ∧
    (1 < page_count doc)%nat ∧
    q `prefix_of` joinpath (parent pdf_path) (stem pdf_path) ∧
    fs w !! q = Some (File c).
Proof.
  intros Hdpi Hraise.
  destruct (convert_pdf_cases pdf_path dpi ov al pw w)
    as [[_ Hr]|[(pix&_&_&_&Hr)|[(doc&f1&_&_&_&_&_&Hr)|
        [(doc&e'&Hdoc&_&Hn&Hmk&_)|[? _]]]]]; try congruence; try lia.
  destruct (mkdir_from_raises _ _ _ _ Hmk) as (q & c & Hp & Hq).
  by exists doc, q, c.
Qed.

(** Whatever [convert_pdf] leaves in the file system was there before, is
    a directory, or is a page rendered through [zoom dpi]. *)
Lemma convert_pdf_pixmaps pdf_path dpi ov al pw w q n :
  fs (convert_pdf pdf_path dpi ov al pw w).1 !! q = Some n →
  fs w !! q = Some n ∨ n = Dir ∨
  ∃ pix, n = File (Png pix) ∧ pix_matrix pix = zoom dpi ∧ pix_alpha pix = al.
Proof.
  destruct (convert_pdf_cases pdf_path dpi ov al pw w)
    as [[-> _]|[(pix&->&Hm&Ha&_)|[(doc&f1&_&_&_&Hmk&->&_)|
        [(doc&e&_&_&_&_&->&_)|(_&->&_)]]]]; try by left.
  - rewrite lookup_insert. case_decide; [|by left].
    intros [= <-]. right; right. by exists pix.
  - intros [Hq|Hpix]%page_loop_pixmaps; [|by do 2 right].
    simpl in Hq.
    destruct (mkdir_from_frame _ _ _ _ Hmk q) as [<-|(_&Hd&_)]; [by left|].
    right; left. congruence.
Qed.

(** C7: for every DPI that converts to a float, the matrix [convert_pdf]
    renders through is the scaling by the double [max(dpi, 1) / 72.0] on
    both axes and nothing else: the one page of a one-page document and
    every page of a longer one, where they are written, are written
    through it; every picture the call leaves that was not there before
    was rendered through it; and a DPI of 1 or less gives the conversion
    at 1. *)
Theorem render_scale_is_dpi_over_72 (dpi : Z) :
  dpi < float_overflow →
  let s := SFdiv 53 1024 (to_float (Z.max dpi 1)) (to_float 72) in
  let zm := {| m_a := s; m_b := S754_zero false; m_c := S754_zero false;
               m_d := s; m_e := S754_zero false; m_f := S754_zero false |} in
  (∀ pdf_path ov al pw doc pg w,
     fs w !! pdf_path = Some (File (Pdf doc)) →
     unlocked doc pw →
     pages doc = [pg] →
     page_fault pg = None →
     fs w !! joinpath (parent pdf_path) (single_name (stem pdf_path)) = None ∨
     (ov = true ∧
      fs w !! joinpath (parent pdf_path) (single_name (stem pdf_path))
        ≠ Some Dir) →
     fs (convert_pdf pdf_path dpi ov al pw w).1
       !! joinpath (parent pdf_path) (single_name (stem pdf_path))
     = Some (File (Png {| pix_art := page_art pg; pix_matrix := zm;
                          pix_alpha := al |}))) ∧
  (∀ pdf_path ov al pw doc w f1 i pg,
     fs w !! pdf_path = Some (File (Pdf doc)) →
     unlocked doc pw →
     plain (stem pdf_path) →
     (1 < page_count doc)%nat →
     mkdir_from [] (joinpath (parent pdf_path) (stem pdf_path)) (fs w)
       = inr f1 →
     pages doc !! i = Some pg →
     page_fault pg = None →
     f1 !! page_target pdf_path (joinpath (parent pdf_path) (stem pdf_path)) i
       = None ∨
     (ov = true ∧
      f1 !! page_target pdf_path (joinpath (parent pdf_path) (stem pdf_path)) i
        ≠ Some Dir) →
     fs (convert_pdf pdf_path dpi ov al pw w).1
       !! page_target pdf_path (joinpath (parent pdf_path) (stem pdf_path)) i
     = Some (File (Png {| pix_art := page_art pg; pix_matrix := zm;
                          pix_alpha := al |}))) ∧
  (∀ pdf_path ov al pw w q pix,
     fs (convert_pdf pdf_path dpi ov al pw w).1 !! q = Some (File (Png pix)) →
     fs w !! q ≠ Some (File (Png pix)) →
     pix_matrix pix = zm) ∧
  (dpi ≤ 1 →
   ∀ pdf_path ov al pw w,
     convert_pdf pdf_path dpi ov al pw w = convert_pdf pdf_path 1 ov al pw w).
Proof.
  intros Hdpi. cbv zeta.
  change {| m_a := _; m_b := _; m_c := _; m_d := _; m_e := _; m_f := _ |}
    with (zoom dpi).
  split; [|split; [|split]].
  - intros pdf_path ov al pw doc pg w Hdoc Hopen Hpages Hfault Hfree.
    rewrite (convert_pdf_opened _ _ _ _ _ doc) by done.
    rewrite (convert_opened_single doc pg) by (by apply unlocked_gate || done).
    simpl. rewrite Hfault.
    destruct Hfree as [Hnone|[-> Hnd]].
    + rewrite blocked_not_dir by (by rewrite Hnone).
      rewrite Hnone. rewrite bool_decide_eq_false_2 by (by intros [? ?]).
      simpl. by rewrite lookup_insert_eq.
    + rewrite andb_false_r, blocked_not_dir by done.
      simpl. by rewrite lookup_insert_eq.
  - intros pdf_path ov al pw doc w f1 i pg Hdoc Hopen _ Hn Hmk Hpg Hfault Hfree.
    destruct (multi_page_layout_parts pdf_path dpi ov al pw doc w f1)
      as (_ & _ & Hpages); try done.
    by apply Hpages.
  - intros pdf_path ov al pw w q pix Hnew Hold.
    destruct (convert_pdf_pixmaps _ _ _ _ _ _ _ _ Hnew)
      as [?|[?|(pix' & [= <-] & -> & _)]]; done.
  - intros Hlow pdf_path ov al pw w.
    unfold convert_pdf, convert_opened, zoom, scale.
    by replace (Z.max dpi 1) with (Z.max 1 1) by lia.
Qed.

(** ** Discovery *)

(** *** The glob and the suffix test *)

Lemma fnmatch_star pat s :
  fnmatch (Star :: pat) s = true ↔
  ∃ pre suf, s = pre +:+ suf ∧ fnmatch pat suf = true.
Proof.
  induction s as [|a s IH].
  - simpl. rewrite orb_false_r. split.
    + intros Hm. by exists EmptyString, EmptyString.
    + intros (pre & suf & Heq & Hm). destruct pre; [|discriminate].
      by rewrite Heq.
  - change (fnmatch (Star :: pat) (String a s))
      with (fnmatch pat (String a s) || fnmatch (Star :: pat) s).
    rewrite orb_true_iff, IH. split.
    + intros [Hm|(pre & suf & -> & Hm)].
      * by exists EmptyString, (String a s).
      * by exists (String a pre), suf.
    + intros (pre & suf & Heq & Hm). destruct pre as [|b pre].
      * left. by rewrite Heq.
      * right. injection Heq as -> ->. by exists pre, suf.
Qed.

Lemma fnmatch_pdf_pattern nm :
  fnmatch pdf_pattern nm = true ↔
  ∃ pre c1 c2 c3,
    nm = pre +:+ String "." (String c1 (String c2 (String c3 EmptyString))) ∧
    c1 ∈ ["P"; "p"]%char ∧ c2 ∈ ["D"; "d"]%char ∧ c3 ∈ ["F"; "f"]%char.
Proof.
  unfold pdf_pattern. rewrite fnmatch_star. split.
  - intros (pre & suf & -> & Hm).
    destruct suf as [|c0 [|c1 [|c2 [|c3 suf]]]]; simpl in Hm;
      try discriminate; try (by rewrite !andb_false_r in Hm).
    apply andb_prop in Hm as [H0%bool_decide_eq_true Hm].
    apply andb_prop in Hm as [H1%bool_decide_eq_true Hm].
    apply andb_prop in Hm as [H2%bool_decide_eq_true Hm].
    apply andb_prop in Hm as [H3%bool_decide_eq_true Hm].
    apply bool_decide_eq_true in Hm as ->.
    apply list_elem_of_singleton in H0 as ->.
    by exists pre, c1, c2, c3.
  - intros (pre & c1 & c2 & c3 & -> & H1 & H2 & H3).
    eexists pre, _. split; [done|]. simpl.
    by rewrite !bool_decide_eq_true_2.
Qed.

Lemma string_length_app (s t : string) :
  String.length (s +:+ t) = (String.length s + String.length t)%nat.
Proof. induction s as [|a s IH]; simpl; [done|]. by rewrite <- IH. Qed.

Lemma rfind_app_last c pre t :
  rfind c t = -1 → rfind c (pre +:+ String c t) = len pre.
Proof.
  intros Ht. unfold len. induction pre as [|a pre IH].
  - change (EmptyString +:+ String c t) with (String c t). simpl.
    rewrite Ht. simpl. by rewrite bool_decide_eq_true_2.
  - change (String a pre +:+ String c t) with (String a (pre +:+ String c t)).
    simpl rfind. rewrite IH.
    destruct (0 <=? Z.of_nat (String.length pre)) eqn:E; simpl; lia.
Qed.

Lemma substring_skip pre s n :
  String.substring (String.length pre) n (pre +:+ s) = String.substring 0 n s.
Proof. induction pre as [|a pre IH]; [done|]. simpl. apply IH. Qed.

Lemma substring_all s : String.substring 0 (String.length s) s = s.
Proof. induction s as [|a s IH]; [done|]. simpl. by rewrite IH. Qed.

Lemma substring_split s : ∀ n, (n ≤ String.length s)%nat →
  s = String.substring 0 n s +:+ String.substring n (String.length s - n) s.
Proof.
  induction s as [|a s IH]; intros n Hn; simpl in *.
  - by destruct n.
  - destruct n as [|n].
    + simpl. by rewrite substring_all.
    + simpl. change (String a ?x +:+ ?y) with (String a (x +:+ y)).
      f_equal. apply IH. lia.
Qed.

Lemma substring_length s : ∀ n m, (n + m ≤ String.length s)%nat →
  String.length (String.substring n m s) = m.
Proof.
  induction s as [|a s IH]; intros n m Hnm; simpl in *.
  - destruct n, m; simpl; lia.
  - destruct n as [|n].
    + destruct m as [|m]; [done|]. simpl. rewrite IH; [done|lia].
    + apply IH. lia.
Qed.

Ltac by_ascii_cases a :=
  destruct a as [[] [] [] [] [] [] [] []]; vm_compute; intros Heq;
  try discriminate Heq; first [reflexivity | by left | by right; left].

Lemma lower_ascii_dot a : lower_ascii a = "."%char → a = "."%char.
Proof. by_ascii_cases a. Qed.
Lemma lower_ascii_p a : lower_ascii a = "p"%char → a ∈ ["P"; "p"]%char.
Proof. by_ascii_cases a. Qed.
Lemma lower_ascii_d a : lower_ascii a = "d"%char → a ∈ ["D"; "d"]%char.
Proof. by_ascii_cases a. Qed.
Lemma lower_ascii_f a : lower_ascii a = "f"%char → a ∈ ["F"; "f"]%char.
Proof. by_ascii_cases a. Qed.

Lemma lower_dot_pdf s :
  lower s = ".pdf" ↔
  ∃ c1 c2 c3,
    s = String "." (String c1 (String c2 (String c3 EmptyString))) ∧
    c1 ∈ ["P"; "p"]%char ∧ c2 ∈ ["D"; "d"]%char ∧ c3 ∈ ["F"; "f"]%char.
Proof.
  split.
  - destruct s as [|c0 [|c1 [|c2 [|c3 [|c4 s]]]]]; simpl; try discriminate.
    intros [= H0%lower_ascii_dot H1%lower_ascii_p H2%lower_ascii_d
              H3%lower_ascii_f].
    subst c0. by exists c1, c2, c3.
  - intros (c1 & c2 & c3 & -> & H1 & H2 & H3).
    rewrite !elem_of_cons, !elem_of_nil in H1, H2, H3.
    destruct H1 as [->|[->|[]]], H2 as [->|[->|[]]], H3 as [->|[->|[]]];
      reflexivity.
Qed.

(** The suffix test of the file branch and the glob of the folder branch
    agree on every name of more than four characters; on a name of four
    the glob alone can match. *)
Lemma glob_agrees_with_suffix nm :
  lower (suffix_of nm) = ".pdf" ↔
  fnmatch pdf_pattern nm = true ∧ (4 < String.length nm)%nat.
Proof.
  rewrite fnmatch_pdf_pattern. split.
  - unfold suffix_of, slice_from, len.
    destruct ((0 <? rfind "." nm) && (rfind "." nm <? Z.of_nat (String.length nm) - 1))
      eqn:Hcond; [|discriminate].
    apply andb_prop in Hcond as [Hpos%Z.ltb_lt Hlt%Z.ltb_lt].
    set (i := Z.to_nat (rfind "." nm)) in *.
    assert (0 < i ∧ i ≤ String.length nm)%nat as [Hi1 Hi2] by lia.
    intros (c1 & c2 & c3 & Hsuf & H1 & H2 & H3)%lower_dot_pdf.
    pose proof (substring_length nm i (String.length nm - i)) as Hlen.
    rewrite Hsuf in Hlen. simpl in Hlen.
    split; [|lia].
    exists (String.substring 0 i nm), c1, c2, c3.
    split; [|done]. rewrite <- Hsuf. by apply substring_split.
  - intros [(pre & c1 & c2 & c3 & -> & H1 & H2 & H3) Hlen].
    rewrite string_length_app in Hlen. simpl in Hlen.
    assert (rfind "." (String c1 (String c2 (String c3 EmptyString))) = -1)
      as Hnodot.
    { rewrite !elem_of_cons, !elem_of_nil in H1, H2, H3.
      destruct H1 as [->|[->|[]]], H2 as [->|[->|[]]], H3 as [->|[->|[]]];
        reflexivity. }
    unfold suffix_of, slice_from. rewrite rfind_app_last by done.
    unfold len. rewrite string_length_app. simpl String.length.
    rewrite Nat2Z.id.
    replace ((0 <? Z.of_nat (String.length pre)) &&
             (Z.of_nat (String.length pre) <?
              Z.of_nat (String.length pre + 4) - 1)) with true
      by (symmetry; apply andb_true_intro; split; apply Z.ltb_lt; lia).
    replace (String.length pre + 4 - String.length pre)%nat with 4%nat by lia.
    rewrite substring_skip. simpl String.substring.
    apply lower_dot_pdf. by exists c1, c2, c3.
Qed.

Lemma glob_is_suffix_or_bare nm :
  fnmatch pdf_pattern nm = true ↔
  lower (suffix_of nm) = ".pdf" ∨ lower nm = ".pdf".
Proof.
  split.
  - intros Hm. destruct (decide (4 < String.length nm)%nat) as [Hlong|Hshort].
    + left. by apply glob_agrees_with_suffix.
    + right. apply fnmatch_pdf_pattern in Hm
        as (pre & c1 & c2 & c3 & -> & H1 & H2 & H3).
      rewrite string_length_app in Hshort. simpl in Hshort.
      destruct pre; [|simpl in Hshort; lia].
      apply lower_dot_pdf. by exists c1, c2, c3.
  - intros [Hsuf|Hbare].
    + by apply glob_agrees_with_suffix in Hsuf as [? _].
    + apply lower_dot_pdf in Hbare as (c1 & c2 & c3 & -> & H1 & H2 & H3).
      apply fnmatch_pdf_pattern. by exists EmptyString, c1, c2, c3.
Qed.

Lemma elem_of_rglob (fs : gmap Path Node) (p : Path) pat (q : Path) :
  q ∈ rglob fs p pat ↔
  p `prefix_of` q ∧ q ≠ p ∧ fnmatch pat (name q) = true ∧ is_Some (fs !! q).
Proof.
  unfold rglob. rewrite list_elem_of_filter, list_elem_of_fmap. split.
  - intros ((? & ? & ?) & [k n] & -> & Hin%elem_of_map_to_list). eauto.
  - intros (? & ? & ? & n & Hn). split; [done|].
    exists (q, n). split; [done|]. by apply elem_of_map_to_list.
Qed.

Section DiscoveryFacts.
Context `{PathEnv}.

Lemma find_pdfs_step_visits fs st raw :
  find_pdfs_step fs st raw = foldl visit st (candidates_of fs raw).
Proof.
  unfold find_pdfs_step, candidates_of.
  destruct (is_file fs _ && bool_decide _); [done|].
  destruct (is_dir fs _); [|done].
  by rewrite foldl_fmap.
Qed.

Lemma find_pdfs_visits fs inputs st :
  foldl (find_pdfs_step fs) st inputs = foldl visit st (encounters fs inputs).
Proof.
  revert st. induction inputs as [|raw inputs IH]; intros st; [done|].
  unfold encounters. simpl. rewrite foldl_app, find_pdfs_step_visits. apply IH.
Qed.

(** [seen] and [out] hold the same paths and [out] has no repetition;
    visiting a list keeps that, only appends to [out], and ends with
    everything visited in [out]. *)
Lemma visit_fold_spec (l : list Path) : ∀ st : gset Path * list Path,
  (∀ x, x ∈ st.1 ↔ x ∈ st.2) → NoDup st.2 →
  (∀ x, x ∈ (foldl visit st l).1 ↔ x ∈ (foldl visit st l).2) ∧
  NoDup (foldl visit st l).2 ∧
  (∃ extra, (foldl visit st l).2 = st.2 ++ extra) ∧
  (∀ x, x ∈ (foldl visit st l).2 ↔ x ∈ st.2 ∨ x ∈ l).
Proof.
  induction l as [|p l IH]; intros st Hagree Hnd; simpl.
  - split; [done|]. split; [done|]. split; [by exists []; rewrite app_nil_r|].
    intros x. rewrite elem_of_nil. tauto.
  - assert ((∀ x, x ∈ (visit st p).1 ↔ x ∈ (visit st p).2) ∧
            NoDup (visit st p).2 ∧
            (∃ e, (visit st p).2 = st.2 ++ e) ∧
            (∀ x, x ∈ (visit st p).2 ↔ x ∈ st.2 ∨ x = p))
      as (Hagree' & Hnd' & [e He] & Hmem').
    { unfold visit. destruct (decide (p ∈ st.1)) as [Hin|Hout]; simpl.
      - split; [done|]. split; [done|].
        split; [by exists []; rewrite app_nil_r|].
        intros x. split; [by left|]. intros [?| ->]; [done|by apply Hagree].
      - split; [|split; [|split]].
        + intros x. rewrite elem_of_union, elem_of_singleton, elem_of_app,
            list_elem_of_singleton, Hagree. tauto.
        + apply NoDup_app. split; [done|]. split; [|apply NoDup_singleton].
          intros x Hx ->%list_elem_of_singleton. by apply Hout, Hagree.
        + by eexists.
        + intros x. rewrite elem_of_app, list_elem_of_singleton. tauto. }
    destruct (IH (visit st p) Hagree' Hnd') as (Ha & Hn & [e' He'] & Hm).
    split; [done|]. split; [done|]. split.
    + exists (e ++ e'). by rewrite He', He, app_assoc.
    + intros x. rewrite Hm, Hmem', elem_of_cons. tauto.
Qed.

Lemma empty_seen_agrees :
  ∀ x : Path, x ∈ (∅ : gset Path) ↔ x ∈ @nil Path.
Proof. intros x. rewrite elem_of_nil. set_solver. Qed.

Lemma find_pdfs_elem fs inputs p :
  p ∈ find_pdfs fs inputs ↔ p ∈ encounters fs inputs.
Proof.
  unfold find_pdfs. rewrite find_pdfs_visits.
  destruct (visit_fold_spec (encounters fs inputs) (∅, []) empty_seen_agrees
              (NoDup_nil_2)) as (_ & _ & _ & Hmem).
  rewrite Hmem. simpl. rewrite elem_of_nil. tauto.
Qed.

(** C2: the result of [find_pdfs] has no duplicate; it holds exactly the
    paths encountered; and a path sits where it was first encountered:
    the entries before it are exactly the paths encountered before its
    first encounter. *)
Theorem find_pdfs_unique_in_first_seen_order fs inputs :
  NoDup (find_pdfs fs inputs) ∧
  (∀ p, p ∈ find_pdfs fs inputs ↔ p ∈ encounters fs inputs) ∧
  (∀ l1 p l2,
     encounters fs inputs = l1 ++ p :: l2 → p ∉ l1 →
     ∃ before after,
       find_pdfs fs inputs = before ++ p :: after ∧
       (∀ x, x ∈ before ↔ x ∈ l1)).
Proof.
  unfold find_pdfs. rewrite find_pdfs_visits.
  pose proof empty_seen_agrees as Hempty.
  destruct (visit_fold_spec (encounters fs inputs) (∅, []) Hempty (NoDup_nil_2))
    as (_ & Hnd & _ & Hmem).
  split; [done|]. split.
  - intros p. rewrite Hmem. simpl. rewrite elem_of_nil. tauto.
  - intros l1 p l2 -> Hfresh. rewrite foldl_app. simpl.
    destruct (visit_fold_spec l1 (∅, []) Hempty (NoDup_nil_2))
      as (Hagree1 & Hnd1 & _ & Hmem1).
    set (st1 := foldl visit (∅, []) l1) in *.
    assert (p ∉ st1.1) as Hnew.
    { rewrite Hagree1, Hmem1. simpl. rewrite elem_of_nil. tauto. }
    assert (visit st1 p = ({[p]} ∪ st1.1, st1.2 ++ [p])) as Hvisit.
    { unfold visit. by rewrite decide_False. }
    rewrite Hvisit.
    assert ((∀ x, x ∈ ({[p]} ∪ st1.1 : gset Path) ↔ x ∈ st1.2 ++ [p]) ∧
            NoDup (st1.2 ++ [p])) as [Hagree2 Hnd2].
    { split.
      - intros x. rewrite elem_of_union, elem_of_singleton, elem_of_app,
          list_elem_of_singleton, Hagree1. tauto.
      - apply NoDup_app. split; [done|]. split; [|apply NoDup_singleton].
        intros x Hx ->%list_elem_of_singleton. by apply Hnew, Hagree1. }
    destruct (visit_fold_spec l2 ({[p]} ∪ st1.1, st1.2 ++ [p]) Hagree2 Hnd2)
      as (_ & _ & [extra Hextra] & _).
    simpl in Hextra. exists st1.2, extra. split.
    + by rewrite Hextra, <- app_assoc.
    + intros x. rewrite Hmem1. simpl. rewrite elem_of_nil. tauto.
Qed.

Lemma find_pdfs_encounters fs inputs :
  find_pdfs fs inputs = (foldl visit (∅, []) (encounters fs inputs)).2.
Proof. unfold find_pdfs. by rewrite find_pdfs_visits. Qed.

Lemma encounters_app fs l1 l2 :
  encounters fs (l1 ++ l2) = encounters fs l1 ++ encounters fs l2.
Proof. unfold encounters. apply bind_app. Qed.

Lemma encounters_cons fs raw l :
  encounters fs (raw :: l) = candidates_of fs raw ++ encounters fs l.
Proof. done. Qed.



Lemma name_joinpath (dir : Path) (nm : string) : name (joinpath dir nm) = nm.
Proof. unfold name, joinpath. apply last_last. Qed.

Lemma no_input_error (inputs : list string) :
  (∀ raw, raw ∈ inputs → input_error raw = None) →
  omap input_error inputs = [].
Proof.
  induction inputs as [|raw l IH]; [done|]. intros Hok. simpl.
  rewrite (Hok raw) by apply list_elem_of_here.
  apply IH. intros r Hr. apply Hok. by apply list_elem_of_further.
Qed.

Lemma find_pdfs_call_returns fs (inputs : list string) :
  (∀ raw, raw ∈ inputs → input_error raw = None) →
  find_pdfs_call fs inputs = inr (find_pdfs fs inputs).
Proof.
  intros Hok. unfold find_pdfs_call. by rewrite no_input_error.
Qed.




(** X12: a folder input: everything below it, at any depth, whose suffix
    is [.pdf] in any mix of cases, is found. *)
Lemma find_pdfs_folder_finds fs raw q :
  is_dir fs (expand_resolve raw) = true →
  expand_resolve raw `prefix_of` q → q ≠ expand_resolve raw →
  is_Some (fs !! q) →
  lower (suffix q) = ".pdf" →
  resolve q ∈ find_pdfs fs [raw].
Proof.
  intros Hdir Hbelow Hne Hq Hsuf.
  apply (find_pdfs_elem fs [raw]).
  rewrite encounters_cons. apply elem_of_app. left.
  unfold candidates_of. unfold is_dir, is_file in *.
  destruct (fs !! expand_resolve raw) as [[c|]|]; try done. simpl.
  apply list_elem_of_fmap_2, elem_of_rglob.
  split; [done|]. split; [done|]. split; [|done].
  apply glob_is_suffix_or_bare. by left.
Qed.

(** X13: whatever a folder input yields is an entry below the folder, a
    file or a directory, whose suffix is [.pdf] or whose whole name is
    [.pdf], in any mix of cases. *)
Lemma find_pdfs_folder_found fs raw p :
  is_dir fs (expand_resolve raw) = true →
  p ∈ find_pdfs fs [raw] →
  ∃ q, p = resolve q ∧
       expand_resolve raw `prefix_of` q ∧ q ≠ expand_resolve raw ∧
       is_Some (fs !! q) ∧
       (lower (suffix q) = ".pdf" ∨ lower (name q) = ".pdf").
Proof.
  intros Hdir Hin. apply (find_pdfs_elem fs [raw]) in Hin.
  rewrite encounters_cons in Hin. apply elem_of_app in Hin as [Hin|[]%elem_of_nil].
  unfold candidates_of in Hin. unfold is_dir, is_file in *.
  destruct (fs !! expand_resolve raw) as [[c|]|]; try done. simpl in Hin.
  apply list_elem_of_fmap in Hin as (q & -> & (?&?&Hm&?)%elem_of_rglob).
  exists q. repeat (split; [done|]). by apply glob_is_suffix_or_bare.
Qed.

End DiscoveryFacts.

(** ** The command line *)

Section CommandLine.
Context `{PathEnv}.

Lemma main_nothing_found args w :
  find_pdfs (fs w) (inputs args) = [] →
  _main args w = (add_log "[INFO] No PDFs found." w, inr 1) ∧
  exit_status args w = 1.
Proof.
  intros Hnone. unfold exit_status, _main. rewrite Hnone. done.
Qed.

(** With something found, [_main] returns 0 unless an exception comes out
    of a conversion, and then the exception is its result. *)
Lemma main_found args w :
  find_pdfs (fs w) (inputs args) ≠ [] →
  _main args w =
  let r := for_each (find_pdfs (fs w) (inputs args))
             (λ pdf, convert_pdf pdf (dpi args) (overwrite args) (alpha args)
                       (password args)) w in
  match r.2 with
  | inr _ => (r.1, inr 0)
  | inl e => (r.1, inl e)
  end.
Proof.
  intros Hfound. unfold _main.
  destruct (find_pdfs (fs w) (inputs args)) as [|pdf pdfs] eqn:E; [done|].
  generalize (for_each (pdf :: pdfs)
                (λ pdf, convert_pdf pdf (dpi args) (overwrite args)
                          (alpha args) (password args))).
  intros loop. unfold mbind, M_bind, mret, M_ret. simpl.
  by destruct (loop w) as [w' [e|[]]].
Qed.

End CommandLine.

(** ** The sample machine *)

Import Sample.




(** The three pages of [r.pdf] land in [/docs/r], and no fourth file. *)
Lemma multi_page_layout_witness :
  let r := convert_pdf ["docs"; "r.pdf"] 600 false false None (start docs_fs) in
  fs r.1 !! ["docs"; "r"] = Some Dir ∧
  fs r.1 !! ["docs"; "r"; "r - Pg 1.png"] =
    Some (File (Png {| pix_art := 1; pix_matrix := zoom 600;
                       pix_alpha := false |})) ∧
  fs r.1 !! ["docs"; "r"; "r - Pg 2.png"] =
    Some (File (Png {| pix_art := 2; pix_matrix := zoom 600;
                       pix_alpha := false |})) ∧
  fs r.1 !! ["docs"; "r"; "r - Pg 3.png"] =
    Some (File (Png {| pix_art := 3; pix_matrix := zoom 600;
                       pix_alpha := false |})) ∧
  fs r.1 !! ["docs"; "r"; "r - Pg 4.png"] = None.
Proof.
  destruct (multi_page_layout ["docs"; "r.pdf"] 600 false false None
              three_pages (start docs_fs) (<[["docs"; "r"] := Dir]> docs_fs))
    as (Hdir & Hframe & Hpages & _).
  - vm_compute. reflexivity.
  - left. reflexivity.
  - reflexivity.
  - split; [|split]; intros Heq; vm_compute in Heq; discriminate.
  - vm_compute. lia.
  - reflexivity.
  - cbv zeta. split; [exact Hdir|].
    split; [apply (Hpages 0%nat {| page_art := 1; page_fault := None |});
            [reflexivity|reflexivity|left; vm_compute; reflexivity]|].
    split; [apply (Hpages 1%nat {| page_art := 2; page_fault := None |});
            [reflexivity|reflexivity|left; vm_compute; reflexivity]|].
    split; [apply (Hpages 2%nat {| page_art := 3; page_fault := None |});
            [reflexivity|reflexivity|left; vm_compute; reflexivity]|].
    rewrite Hframe; [vm_compute; reflexivity|].
    intros N HN Heq. unfold page_count in HN. simpl in HN.
    assert (N = 1 ∨ N = 2 ∨ N = 3)%nat as [->|[->| ->]] by lia;
      vm_compute in Heq; discriminate.
Defined.

(** The directory of a converted three-page document holds the three page
    files and nothing else. *)
Example three_page_directory_listing :
  let r := convert_pdf ["docs"; "r.pdf"] 600 false false None (start docs_fs) in
  r.2 = inr tt ∧
  iterdir (fs r.1) ["docs"; "r"] ≡ₚ
    [ ["docs"; "r"; "r - Pg 1.png"]; ["docs"; "r"; "r - Pg 2.png"];
      ["docs"; "r"; "r - Pg 3.png"] ] ∧
  log r.1 = ["[OK] r.pdf -> /docs/r/(Pg 1..3)"].
Proof.
  vm_compute. split; [reflexivity|]. split; [|reflexivity].
  apply Permutation_sym, (Permutation_rev [_; _; _]).
Qed.


(** [b.pdf] at 600 DPI with overwrite: [b.png] holds the page scaled by
    the double nearest to 600/72 on both axes. *)
Lemma render_scale_is_dpi_over_72_witness :
  fs (convert_pdf ["docs"; "b.pdf"] 600 true false None (start docs_fs)).1
    !! ["docs"; "b.png"]
  = Some (File (Png
      {| pix_art := 7;
         pix_matrix :=
           {| m_a := S754_finite false 4691249611844267 (-49);
              m_b := S754_zero false; m_c := S754_zero false;
              m_d := S754_finite false 4691249611844267 (-49);
              m_e := S754_zero false; m_f := S754_zero false |};
         pix_alpha := false |})).
Proof.
  destruct (render_scale_is_dpi_over_72 600) as (Hsingle & _).
  - reflexivity.
  - apply (Hsingle ["docs"; "b.pdf"] true false None one_page
             {| page_art := 7; page_fault := None |} (start docs_fs)).
    + vm_compute. reflexivity.
    + left. reflexivity.
    + reflexivity.
    + reflexivity.
    + right. split; [reflexivity|]. vm_compute. discriminate.
Defined.

(** C7 as stated fails at a DPI too large for a float: at 2^1024 - 2^970
    and beyond, [float(max(dpi, 1))] raises [OverflowError]; no scale is
    computed, nothing is rendered or logged, and the exception leaves
    [convert_pdf]. *)
Lemma render_scale_overflow :
  convert_pdf ["docs"; "b.pdf"] float_overflow true false None (start docs_fs)
  = (start docs_fs, inl OverflowError).
Proof. vm_compute. reflexivity. Qed.

(** The scale is a double, the quotient rounded to nearest: 600/72 is
    8.333333333333334, 72/72 is 1.0, and 1/72 is 0.013888888888888888, a
    double that is not the fraction 1/72; the last DPI before the overflow
    still has a scale. *)
Example render_scale_doubles :
  scale 600 = S754_finite false 4691249611844267 (-49) ∧
  scale 72 = S754_finite false 4503599627370496 (-52) ∧
  scale 1 = S754_finite false 8006399337547548 (-59) ∧
  scale 0 = scale 1 ∧
  72 * 8006399337547548 ≠ 2 ^ 59 ∧
  (∃ m e, scale (float_overflow - 1) = S754_finite false m e).
Proof.
  split; [by vm_compute|]. split; [by vm_compute|]. split; [by vm_compute|].
  split; [by vm_compute|]. split; [by vm_compute|].
  eexists _, _. vm_compute. reflexivity.
Qed.

(** C1, as the code runs it: [LICENSE.pdf] has two pages and a regular
    file [LICENSE] lies beside it.  [mkdir] raises [FileExistsError],
    nothing in [convert_pdf] catches it, [_main] does not either, and
    [b.pdf], next in the batch, is never converted, although on its own it
    converts. *)
Theorem obstructed_directory_aborts_batch :
  @find_pdfs posix obstructed_fs ["/docs/LICENSE.pdf"; "/docs/b.pdf"] =
    [["docs"; "LICENSE.pdf"]; ["docs"; "b.pdf"]] ∧
  (convert_pdf ["docs"; "LICENSE.pdf"] 600 false false None
     (start obstructed_fs)).2 = inl (FileExistsError ["docs"; "LICENSE"]) ∧
  (@_main posix (cli ["/docs/LICENSE.pdf"; "/docs/b.pdf"] false)
     (start obstructed_fs)).2 = inl (FileExistsError ["docs"; "LICENSE"]) ∧
  fs (@_main posix (cli ["/docs/LICENSE.pdf"; "/docs/b.pdf"] false)
        (start obstructed_fs)).1 !! ["docs"; "b.png"] = None ∧
  log (@_main posix (cli ["/docs/LICENSE.pdf"; "/docs/b.pdf"] false)
         (start obstructed_fs)).1 = [] ∧
  @_main posix (cli ["/docs/b.pdf"] false) (start obstructed_fs) =
    (add_log "[OK] b.pdf -> b.png"
       (set_fs <[["docs"; "b.png"]
                 := File (Png {| pix_art := 7; pix_matrix := zoom 600;
                                 pix_alpha := false |})]>
          (start obstructed_fs)),
     inr 0).
Proof. vm_compute. repeat split; reflexivity. Qed.

(** The sibling path: a one-page document whose target cannot be written
    (a directory that holds a file stands there) is reported and the call
    returns, with nothing changed. *)
Example unwritable_single_page_is_contained :
  let r := convert_pdf ["docs"; "b.pdf"] 600 true false None
             (start png_is_dir_fs) in
  r.2 = inr tt ∧
  fs r.1 = png_is_dir_fs ∧
  ∃ reason,
    log r.1 = ["[WARN] Failed to render/save 'b.pdf' Pg 1: " +:+ reason].
Proof.
  cbv zeta. split; [reflexivity|]. split; [reflexivity|].
  exists (cannot_remove ["docs"; "b.png"]). reflexivity.
Qed.

(** An empty directory at the target is cleared like a file: the picture
    takes its place. *)
Example empty_directory_target_is_replaced :
  convert_pdf ["docs"; "b.pdf"] 600 true false None
    (start (<[["docs"; "b.png"] := Dir]> obstructed_fs)) =
  (add_log "[OK] b.pdf -> b.png"
     (set_fs <[["docs"; "b.png"]
               := File (Png {| pix_art := 7; pix_matrix := zoom 600;
                               pix_alpha := false |})]>
        (start (<[["docs"; "b.png"] := Dir]> obstructed_fs))),
   inr tt).
Proof. reflexivity. Qed.

(** A page that fails is reported and the next page is still converted. *)
Example failed_page_does_not_stop_the_next :
  let r := convert_pdf ["docs"; "half.pdf"] 600 false false None
             (start docs_fs) in
  r.2 = inr tt ∧
  log r.1 = [ "[WARN] Failed to render/save 'half.pdf' Pg 1: bad xref";
              "[OK] half.pdf -> /docs/half/(Pg 1..2)" ] ∧
  fs r.1 !! ["docs"; "half"; "half - Pg 1.png"] = None ∧
  fs r.1 !! ["docs"; "half"; "half - Pg 2.png"] =
    Some (File (Png {| pix_art := 2; pix_matrix := zoom 600;
                       pix_alpha := false |})).
Proof. vm_compute. repeat split; reflexivity. Qed.

(** C6, as the code runs it: discovery finds two PDFs, the exception of
    the first conversion escapes [_main], and the process ends with
    status 1 instead of 0. *)
Theorem exit_status_one_although_pdfs_found :
  @find_pdfs posix obstructed_fs ["/docs/LICENSE.pdf"; "/docs/b.pdf"] ≠ [] ∧
  @exit_status posix (cli ["/docs/LICENSE.pdf"; "/docs/b.pdf"] false)
    (start obstructed_fs) = 1 ∧
  log (@_main posix (cli ["/docs/LICENSE.pdf"; "/docs/b.pdf"] false)
         (start obstructed_fs)).1 = [].
Proof. vm_compute. repeat split; try reflexivity. discriminate. Qed.

(** A file given directly and found again in a folder given next is
    listed once, where it was first met. *)
Example file_and_its_folder :
  @encounters posix docs_fs ["/docs/sub/Scan.PDF"; "/docs/sub"; "/docs/sub/Scan.PDF"] =
    [ ["docs"; "sub"; "Scan.PDF"]; ["docs"; "sub"; ".pdf"];
      ["docs"; "sub"; "Scan.PDF"]; ["docs"; "sub"; "Scan.PDF"] ] ∧
  @find_pdfs posix docs_fs ["/docs/sub/Scan.PDF"; "/docs/sub"; "/docs/sub/Scan.PDF"] =
    [ ["docs"; "sub"; "Scan.PDF"]; ["docs"; "sub"; ".pdf"] ].
Proof. vm_compute. split; reflexivity. Qed.


(** The two filters of [find_pdfs] part on one name only in kind: a file
    called just [.pdf] has no suffix for [PurePath.suffix] but matches the
    glob, so it is found under a folder and not when given directly. *)
Remark bare_dot_pdf :
  suffix_of ".pdf" = EmptyString ∧
  fnmatch pdf_pattern ".pdf" = true ∧
  @find_pdfs posix docs_fs ["/docs/sub/.pdf"] = [] ∧
  ["docs"; "sub"; ".pdf"] ∈ @find_pdfs posix docs_fs ["/docs/sub"].
Proof.
  vm_compute. repeat split; try reflexivity. apply list_elem_of_here.
Qed.

(** * Further properties of the conversion *)

(** ** Ways out of [convert_pdf] *)

(** X1: a path at which nothing exists, or a directory, or a file PyMuPDF
    refuses gives one [ERROR] line, the name and then the reason, and
    nothing else: the file system and the open handles are as before, the
    call returns, and the batch goes on.  Where nothing exists the reason
    is [no such file: '<path>']. *)
Theorem convert_pdf_open_failure pdf_path dpi ov al pw w rest :
  fs w !! pdf_path = None ∨ fs w !! pdf_path = Some Dir ∨
  (∃ data, fs w !! pdf_path = Some (File (Other data))) →
  ∃ reason,
    convert_pdf pdf_path dpi ov al pw w =
      (add_log ("[ERROR] Could not open '" +:+ name pdf_path +:+ "': "
                  +:+ reason) w, inr tt) ∧
    for_each (pdf_path :: rest) (λ pdf, convert_pdf pdf dpi ov al pw) w =
      for_each rest (λ pdf, convert_pdf pdf dpi ov al pw)
        (add_log ("[ERROR] Could not open '" +:+ name pdf_path +:+ "': "
                    +:+ reason) w) ∧
    (fs w !! pdf_path = None →
     reason = "no such file: '" +:+ to_str pdf_path +:+ "'").
Proof.
  intros Hno.
  assert (∃ e, convert_pdf pdf_path dpi ov al pw w =
                 (add_log (open_error_line pdf_path e) w, inr tt) ∧
               (fs w !! pdf_path = None → e = FileNotFoundError pdf_path))
    as (e & Hrun & Hgone).
  { unfold convert_pdf, pymupdf_open. run.
    destruct Hno as [E|[E|[data E]]]; rewrite E; eauto.
    - eexists. split; [done|]. intros [=].
    - eexists. split; [done|]. intros [=]. }
  exists (exn_str e). split; [done|]. split.
  - simpl. run. by rewrite Hrun.
  - intros Hnone. by rewrite (Hgone Hnone).
Qed.

(** *** When an exception leaves the call *)

Lemma mkdir_from_file_at_end rest : ∀ base f x c,
  (∀ q, base `prefix_of` q → q ≠ base → q `prefix_of` base ++ rest →
        f !! q = Some Dir) →
  f !! (base ++ rest ++ [x]) = Some (File c) →
  mkdir_from base (rest ++ [x]) f = inl (FileExistsError (base ++ rest ++ [x])).
Proof.
  induction rest as [|y rest IH]; intros base f x c Hdirs Hfile; simpl.
  - simpl in Hfile. by rewrite Hfile.
  - rewrite (Hdirs (base ++ [y])).
    + rewrite (snoc_app base y (rest ++ [x])).
      apply (IH (base ++ [y]) f x c).
      * intros q Hlow Hne Hup. apply Hdirs.
        -- etrans; [|done]. by exists [y].
        -- intros ->. destruct Hlow as [k Hk].
           rewrite <- app_assoc in Hk.
           rewrite <- (app_nil_r base) in Hk at 1.
           by apply app_inv_head in Hk.
        -- by rewrite (snoc_app base y rest).
      * by rewrite <- (snoc_app base y (rest ++ [x])).
    + by exists [y].
    + intros Heq. rewrite <- (app_nil_r base) in Heq at 2.
      by apply app_inv_head in Heq.
    + rewrite (snoc_app base y rest). by exists rest.
Qed.

(** X2: a readable document of more than one page whose output directory
    [<parent>/<stem>] is taken by a regular file, at a DPI that converts
    to a float: [mkdir] raises [FileExistsError] for that path, nothing
    catches it, and it leaves [convert_pdf] with nothing logged, nothing
    written and the document closed; a batch stops there. *)
Theorem convert_pdf_blocked_directory pdf_path dpi ov al pw doc c w rest :
  fs w !! pdf_path = Some (File (Pdf doc)) →
  unlocked doc pw →
  dpi < float_overflow →
  plain (stem pdf_path) →
  (1 < page_count doc)%nat →
  (∀ q, q `prefix_of` parent pdf_path → q ≠ [] → fs w !! q = Some Dir) →
  fs w !! joinpath (parent pdf_path) (stem pdf_path) = Some (File c) →
  convert_pdf pdf_path dpi ov al pw w =
    (w, inl (FileExistsError (joinpath (parent pdf_path) (stem pdf_path)))) ∧
  for_each (pdf_path :: rest) (λ pdf, convert_pdf pdf dpi ov al pw) w =
    (w, inl (FileExistsError (joinpath (parent pdf_path) (stem pdf_path)))).
Proof.
  intros Hdoc Hopen Hdpi _ Hn Hdirs Hfile.
  assert (convert_pdf pdf_path dpi ov al pw w =
          (w, inl (FileExistsError
                     (joinpath (parent pdf_path) (stem pdf_path))))) as Hrun.
  { rewrite (convert_pdf_opened _ _ _ _ _ doc) by done.
    rewrite convert_opened_multi by (by apply unlocked_gate || done).
    simpl. unfold joinpath in *.
    rewrite (mkdir_from_file_at_end (parent pdf_path) [] (fs w)
               (stem pdf_path) c); [by destruct w| |done].
    intros q _ Hne Hup. by apply Hdirs. }
  split; [done|]. simpl. run. by rewrite Hrun.
Qed.

(** ** What the call writes, and what it leaves alone *)

Lemma mkdir_from_preserves rest base f f1 q :
  mkdir_from base rest f = inr f1 → is_Some (f !! q) → f1 !! q = f !! q.
Proof.
  intros Hmk [n Hn].
  destruct (mkdir_from_frame _ _ _ _ Hmk q) as [?|(Hnone & _)]; [done|].
  congruence.
Qed.

Lemma convert_page_preserves doc pdf_path out_dir zm al i w q :
  is_Some (fs w !! q) →
  fs (convert_page doc pdf_path out_dir zm false al i w).1 !! q = fs w !! q.
Proof.
  intros Hq. rewrite convert_page_run. simpl. rewrite andb_true_r.
  case_bool_decide as Hex; [done|].
  destruct (pages doc !! i) as [pg|]; [|done].
  destruct (page_fault pg); [done|].
  destruct (blocked _ _); [done|]. simpl.
  rewrite lookup_insert_ne; [done|]. intros Heq. by subst q.
Qed.

Lemma page_loop_preserves doc pdf_path out_dir zm al l w q :
  is_Some (fs w !! q) →
  fs (for_each l (convert_page doc pdf_path out_dir zm false al) w).1 !! q
  = fs w !! q.
Proof.
  intros Hq.
  apply (for_each_inv (λ w', fs w' !! q = fs w !! q)); [|done].
  intros i w' _ Hw'. split; [apply convert_page_returns|].
  rewrite convert_page_preserves; [done|by rewrite Hw'].
Qed.

Lemma convert_pdf_keeps_existing_aux pdf_path dpi al pw w q :
  is_Some (fs w !! q) →
  fs (convert_pdf pdf_path dpi false al pw w).1 !! q = fs w !! q.
Proof.
  intros Hq.
  destruct (fs w !! pdf_path) as [[[doc| |]|]|] eqn:Hdoc.
  2-5: destruct (convert_pdf_not_opened pdf_path dpi false al pw w) as [e ->];
       [intros doc; by rewrite Hdoc|done].
  rewrite (convert_pdf_opened _ _ _ _ _ doc) by done.
  destruct (needs_pass doc && auth_fails doc pw) eqn:Hgate.
  { unfold convert_opened. by rewrite Hgate. }
  destruct (pages doc) as [|pg rest] eqn:Hpages.
  { unfold convert_opened, page_count. by rewrite Hgate, Hpages. }
  destruct (decide (dpi < float_overflow)) as [Hdpi|Hdpi].
  2: { rewrite convert_opened_overflow; [done|done|by rewrite Hpages|lia]. }
  destruct rest as [|pg' rest].
  - rewrite (convert_opened_single doc pg) by done. simpl.
    rewrite andb_true_r. case_bool_decide as Hex; [done|].
    destruct (page_fault pg); [done|].
    destruct (blocked _ _); [done|]. simpl.
    rewrite lookup_insert_ne; [done|]. intros Heq. by subst q.
  - assert (1 < page_count doc)%nat as Hn
      by (unfold page_count; rewrite Hpages; simpl; lia).
    rewrite convert_opened_multi by done. simpl.
    destruct (mkdir_from [] (joinpath (parent pdf_path) (stem pdf_path)) (fs w))
      as [e|f1] eqn:Hmk; [done|].
    simpl. rewrite page_loop_preserves; simpl.
    + by apply (mkdir_from_preserves _ _ _ _ _ Hmk).
    + by rewrite (mkdir_from_preserves _ _ _ _ _ Hmk).
Qed.

(** X4: without overwrite, nothing that exists is changed or removed: every
    path that held something before the call holds the same afterwards, and
    so nothing that was there is gone. *)
Theorem convert_pdf_keeps_existing pdf_path dpi al pw w q n :
  fs w !! q = Some n →
  fs (convert_pdf pdf_path dpi false al pw w).1 !! q = Some n.
Proof.
  intros Hq. rewrite convert_pdf_keeps_existing_aux; [done|by rewrite Hq].
Qed.


(** ** The log and the handle count do not steer a call *)

Lemma fs_only_ret {A} (x : A) : fs_only (mret x).
Proof. by intros w1 w2 Hfs. Qed.

Lemma fs_only_bind {A B} (c : M A) (f : A → M B) :
  fs_only c → (∀ x, fs_only (f x)) → fs_only (c ≫= f).
Proof.
  intros Hc Hf w1 w2 Hfs. destruct (Hc w1 w2 Hfs) as [Hfs' Hr].
  unfold mbind, M_bind.
  destruct (c w1) as [w1' [e1|x1]], (c w2) as [w2' [e2|x2]];
    simpl in *; try congruence.
  all: injection Hr as ->; first [done | by apply Hf].
Qed.

Lemma fs_only_attempt {A} (c : M A) : fs_only c → fs_only (attempt c).
Proof.
  intros Hc w1 w2 Hfs. destruct (Hc w1 w2 Hfs) as [Hfs' Hr].
  unfold attempt. destruct (c w1), (c w2). simpl in *. by rewrite Hr.
Qed.

Lemma fs_only_try_except {A} (c : M A) (h : Exn → M A) :
  fs_only c → (∀ e, fs_only (h e)) → fs_only (try_except c h).
Proof.
  intros Hc Hh w1 w2 Hfs. destruct (Hc w1 w2 Hfs) as [Hfs' Hr].
  unfold try_except.
  destruct (c w1) as [w1' [e1|x1]], (c w2) as [w2' [e2|x2]];
    simpl in *; try congruence.
  all: injection Hr as ->; first [done | by apply Hh].
Qed.

Lemma fs_only_try_finally {A} (c : M A) (f : M unit) :
  fs_only c → fs_only f → fs_only (try_finally c f).
Proof.
  intros Hc Hf w1 w2 Hfs. destruct (Hc w1 w2 Hfs) as [Hfs' Hr].
  unfold try_finally.
  destruct (c w1) as [w1' r1], (c w2) as [w2' r2]. simpl in *.
  destruct (Hf w1' w2' Hfs') as [Hfs'' Hr'].
  destruct (f w1') as [w1'' [e1|[]]], (f w2') as [w2'' [e2|[]]];
    simpl in *; try congruence; split; congruence.
Qed.

Lemma fs_only_for_each {A} (l : list A) (body : A → M unit) :
  (∀ x, fs_only (body x)) → fs_only (for_each l body).
Proof.
  intros Hbody. induction l as [|x l IH]; simpl.
  - apply fs_only_ret.
  - apply fs_only_bind; [apply Hbody|by intros _].
Qed.

Lemma fs_only_say msg : fs_only (_say msg).
Proof. by intros w1 w2 Hfs. Qed.

Lemma fs_only_exists p : fs_only (exists_ p).
Proof. intros w1 w2 Hfs. unfold exists_. simpl. by rewrite Hfs. Qed.

Lemma fs_only_mkdir p : fs_only (mkdir p).
Proof.
  intros w1 w2 Hfs. unfold mkdir. rewrite Hfs.
  by destruct (mkdir_from [] p (fs w2)).
Qed.

Lemma fs_only_open p : fs_only (pymupdf_open p).
Proof.
  intros w1 w2 Hfs. unfold pymupdf_open. rewrite Hfs.
  by destruct (fs w2 !! p) as [[[]|]|].
Qed.

Lemma fs_only_close doc : fs_only (close doc).
Proof. by intros w1 w2 Hfs. Qed.

Lemma fs_only_render_save doc i zm al out_png :
  fs_only (render_save doc i zm al out_png).
Proof.
  intros w1 w2 Hfs. unfold render_save, load_page, get_pixmap, save. run.
  destruct (pages doc !! i) as [pg|]; [|done].
  destruct (page_fault pg); [done|]. rewrite Hfs.
  destruct (blocked (fs w2) out_png); simpl; by rewrite ?Hfs.
Qed.

Lemma fs_only_convert_page doc pdf_path out_dir zm ov al i :
  fs_only (convert_page doc pdf_path out_dir zm ov al i).
Proof.
  unfold convert_page. apply fs_only_bind; [apply fs_only_exists|].
  intros ex. destruct (ex && negb ov); [apply fs_only_say|].
  apply fs_only_try_except; [apply fs_only_render_save|].
  intros e. apply fs_only_say.
Qed.

Lemma fs_only_convert_opened doc pdf_path dpi ov al pw :
  fs_only (convert_opened doc pdf_path dpi ov al pw).
Proof.
  unfold convert_opened.
  destruct (needs_pass doc && auth_fails doc pw); [apply fs_only_say|].
  case_bool_decide; [apply fs_only_say|].
  destruct (float_overflow <=? Z.max dpi 1); [by intros w1 w2 Hfs|].
  case_bool_decide.
  - apply fs_only_bind; [apply fs_only_exists|].
    intros ex. destruct (ex && negb ov); [apply fs_only_say|].
    apply fs_only_bind; [apply fs_only_attempt, fs_only_render_save|].
    intros [e|[]]; apply fs_only_say.
  - apply fs_only_bind; [apply fs_only_mkdir|]. intros _.
    apply fs_only_bind; [|intros _; apply fs_only_say].
    apply fs_only_for_each. intros i. apply fs_only_convert_page.
Qed.

Lemma fs_only_convert_pdf pdf_path dpi ov al pw :
  fs_only (convert_pdf pdf_path dpi ov al pw).
Proof.
  unfold convert_pdf.
  apply fs_only_bind; [apply fs_only_attempt, fs_only_open|].
  intros [e|doc]; [apply fs_only_say|].
  apply fs_only_try_finally; [apply fs_only_convert_opened|].
  apply fs_only_try_except; [apply fs_only_close|].
  intros e. apply fs_only_ret.
Qed.


(** ** Running a conversion again *)

Lemma mkdir_from_dirs rest : ∀ base f f1 q,
  mkdir_from base rest f = inr f1 →
  base `prefix_of` q → q ≠ base → q `prefix_of` base ++ rest →
  f1 !! q = Some Dir.
Proof.
  induction rest as [|x rest IH]; intros base f f1 q Hmk Hlow Hne Hup.
  - rewrite app_nil_r in Hup. destruct Hne. by apply (anti_symm prefix).
  - simpl in Hmk. destruct (decide (q = base ++ [x])) as [->|Hnext].
    + destruct (f !! (base ++ [x])) as [[c|]|] eqn:E; [done| |].
      * rewrite (mkdir_from_preserves _ _ _ _ _ Hmk); [done|by rewrite E].
      * rewrite (mkdir_from_preserves _ _ _ _ _ Hmk);
          rewrite lookup_insert_eq; done.
    + assert (base ++ [x] `prefix_of` q) as Hlow'.
      { destruct Hlow as [k ->]. destruct Hup as [k' Hk'].
        rewrite <- app_assoc in Hk'. apply app_inv_head in Hk'.
        destruct k as [|y k]; [by rewrite app_nil_r in Hne|].
        simpl in Hk'. injection Hk' as <- _.
        exists k. by rewrite <- app_assoc. }
      rewrite (snoc_app base x rest) in Hup.
      destruct (f !! (base ++ [x])) as [[c|]|] eqn:E; [done| |];
        by apply (IH _ _ _ q Hmk).
Qed.

Lemma mkdir_from_settled rest : ∀ base f,
  (∀ q, base `prefix_of` q → q ≠ base → q `prefix_of` base ++ rest →
        f !! q = Some Dir) →
  mkdir_from base rest f = inr f.
Proof.
  induction rest as [|x rest IH]; intros base f Hdirs; [done|].
  simpl. rewrite (Hdirs (base ++ [x])).
  - apply IH. intros q Hlow Hne Hup. apply Hdirs.
    + etrans; [|done]. by exists [x].
    + intros ->. apply prefix_length in Hlow.
      rewrite length_app in Hlow. simpl in Hlow. lia.
    + by rewrite (snoc_app base x rest).
  - by exists [x].
  - intros Heq. apply (f_equal length) in Heq.
    rewrite length_app in Heq. simpl in Heq. lia.
  - rewrite (snoc_app base x rest). by exists rest.
Qed.

Lemma second_run_same_fs pdf_path dpi ov al pw w :
  fs (convert_pdf pdf_path dpi ov al pw w).1 = fs w →
  fs (convert_pdf pdf_path dpi ov al pw
        (convert_pdf pdf_path dpi ov al pw w).1).1
    = fs (convert_pdf pdf_path dpi ov al pw w).1 ∧
  (convert_pdf pdf_path dpi ov al pw
     (convert_pdf pdf_path dpi ov al pw w).1).2
    = (convert_pdf pdf_path dpi ov al pw w).2.
Proof.
  intros Hsame.
  destruct (fs_only_convert_pdf pdf_path dpi ov al pw _ w Hsame) as [-> ->].
  done.
Qed.

(** X5: without overwrite a second run of the same conversion writes
    nothing: it leaves the file system as the first run left it, and ends
    the way the first run ended. *)
Theorem convert_pdf_second_run_idle pdf_path dpi al pw w :
  fs (convert_pdf pdf_path dpi false al pw
        (convert_pdf pdf_path dpi false al pw w).1).1
    = fs (convert_pdf pdf_path dpi false al pw w).1 ∧
  (convert_pdf pdf_path dpi false al pw
     (convert_pdf pdf_path dpi false al pw w).1).2
    = (convert_pdf pdf_path dpi false al pw w).2.
Proof.
  destruct (fs w !! pdf_path) as [[[doc| |]|]|] eqn:Hdoc.
  2-5: apply second_run_same_fs;
       destruct (convert_pdf_not_opened pdf_path dpi false al pw w) as [e ->];
       [intros doc; by rewrite Hdoc|done].
  destruct (needs_pass doc && auth_fails doc pw) eqn:Hgate.
  { apply second_run_same_fs.
    rewrite (convert_pdf_opened _ _ _ _ _ doc) by done.
    unfold convert_opened. by rewrite Hgate. }
  assert (fs (convert_pdf pdf_path dpi false al pw w).1 !! pdf_path
          = Some (File (Pdf doc))) as Hdoc'.
  { rewrite convert_pdf_keeps_existing_aux; [done|by rewrite Hdoc]. }
  destruct (pages doc) as [|pg rest] eqn:Hpages.
  { apply second_run_same_fs.
    rewrite (convert_pdf_opened _ _ _ _ _ doc) by done.
    unfold convert_opened, page_count. by rewrite Hgate, Hpages. }
  destruct (decide (dpi < float_overflow)) as [Hdpi|Hdpi].
  2: { apply second_run_same_fs.
       rewrite (convert_pdf_opened _ _ _ _ _ doc) by done.
       rewrite convert_opened_overflow; [done|done|by rewrite Hpages|lia]. }
  destruct rest as [|pg' rest].
  - rewrite (convert_pdf_opened _ _ _ _ _ doc _ Hdoc').
    revert Hdoc'.
    rewrite (convert_pdf_opened _ _ _ _ _ doc w Hdoc).
    rewrite !(convert_opened_single doc pg) by done. simpl.
    rewrite !andb_true_r.
    destruct (bool_decide (is_Some (fs w !! joinpath (parent pdf_path)
                (single_name (stem pdf_path))))) eqn:Hex; simpl.
    { by rewrite ?Hex. }
    destruct (page_fault pg) eqn:Hfault; simpl.
    { by rewrite ?Hex, ?Hfault. }
    apply bool_decide_eq_false in Hex.
    rewrite blocked_not_dir
      by (by rewrite (proj2 (eq_None_not_Some _) Hex)).
    simpl. intros _. rewrite lookup_insert_eq.
    by rewrite bool_decide_eq_true_2 by eauto.
  - assert (1 < page_count doc)%nat as Hn
      by (unfold page_count; rewrite Hpages; simpl; lia).
    pose proof (gate_unlocked _ _ Hgate) as Hopen.
    destruct (mkdir_from [] (joinpath (parent pdf_path) (stem pdf_path)) (fs w))
      as [e|f1] eqn:Hmk.
    { apply second_run_same_fs.
      rewrite (convert_pdf_opened _ _ _ _ _ doc) by done.
      rewrite convert_opened_multi by done. simpl. by rewrite Hmk. }
    set (out_dir := joinpath (parent pdf_path) (stem pdf_path)) in *.
    set (w1 := (convert_pdf pdf_path dpi false al pw w).1) in *.
    assert (fs w1 = fs (for_each (seq 0 (page_count doc))
              (convert_page doc pdf_path out_dir (zoom dpi) false al)
              (set_fs (λ _, f1) (set_handles S w))).1) as Hw1.
    { subst w1. by rewrite (convert_pdf_multi _ _ _ _ _ doc w f1). }
    assert ((convert_pdf pdf_path dpi false al pw w).2 = inr tt) as Hr1.
    { by rewrite (convert_pdf_multi _ _ _ _ _ doc w f1). }
    assert (mkdir_from [] out_dir (fs w1) = inr (fs w1)) as Hmk1.
    { apply mkdir_from_settled. intros q Hlow Hne Hup.
      rewrite Hw1, page_loop_preserves; simpl.
      - by apply (mkdir_from_dirs _ _ _ _ _ Hmk).
      - rewrite (mkdir_from_dirs _ _ _ _ _ Hmk); done. }
    rewrite (convert_pdf_multi _ _ _ _ _ doc w1 (fs w1)) by done.
    simpl. rewrite Hr1. split; [|done].
    rewrite page_loop_idle; [done|]. simpl.
    intros i Hi%elem_of_seq.
    destruct (fs w1 !! page_target pdf_path out_dir i) as [n|] eqn:Htarget;
      [left; eauto|right].
    intros pg'' Hpg. destruct (page_fault pg'') as [msg|] eqn:Hfault; [eauto|].
    assert (f1 !! page_target pdf_path out_dir i = None) as Hfree.
    { destruct (f1 !! page_target pdf_path out_dir i) as [n|] eqn:E; [|done].
      rewrite Hw1, page_loop_preserves in Htarget; simpl; [|by rewrite E].
      simpl in Htarget. congruence. }
    rewrite Hw1 in Htarget.
    rewrite (seq_split_at (page_count doc) i) in Htarget by lia.
    rewrite (page_loop_writes doc pdf_path out_dir (zoom dpi) false al
               _ _ i pg'') in Htarget; try done.
    + rewrite elem_of_seq. lia.
    + rewrite elem_of_seq. lia.
    + by left.
Qed.


(** ** Where the output goes *)

Lemma page_loop_never_removes doc pdf_path out_dir zm ov al l w q :
  is_Some (fs w !! q) →
  is_Some (fs (for_each l (convert_page doc pdf_path out_dir zm ov al) w).1 !! q).
Proof.
  intros Hq.
  apply (for_each_inv (λ w', is_Some (fs w' !! q))); [|done].
  intros i w' _ Hw'. split; [apply convert_page_returns|].
  rewrite convert_page_run. simpl.
  repeat (case_match; simpl; try done).
  all: rewrite lookup_insert; by case_decide.
Qed.

Lemma convert_pdf_frame pdf_path dpi ov al pw w q :
  q ≠ joinpath (parent pdf_path) (single_name (stem pdf_path)) →
  (∀ i, q ≠ page_target pdf_path
              (joinpath (parent pdf_path) (stem pdf_path)) i) →
  (q `prefix_of` joinpath (parent pdf_path) (stem pdf_path) →
   is_Some (fs w !! q)) →
  fs (convert_pdf pdf_path dpi ov al pw w).1 !! q = fs w !! q.
Proof.
  intros Hsingle Hpage Hdirs.
  destruct (convert_pdf_cases pdf_path dpi ov al pw w)
    as [[-> _]|[(pix&->&_)|[(doc&f1&_&_&_&Hmk&->&_)|
        [(doc&e&_&_&_&_&->&_)|(_&->&_)]]]]; try done.
  - by rewrite lookup_insert_ne.
  - rewrite page_loop_frame by (intros i _; apply Hpage). simpl.
    destruct (mkdir_from_frame _ _ _ _ Hmk q) as [?|(Hnone&_&Hp)]; [done|].
    destruct (Hdirs Hp) as [n Hn]. congruence.
Qed.

(** X6: a conversion never removes anything: whatever path held a file or a
    folder before the call holds one afterwards, with overwrite on as well,
    and also when the call raises. *)
Theorem convert_pdf_never_removes pdf_path dpi ov al pw w q :
  is_Some (fs w !! q) →
  is_Some (fs (convert_pdf pdf_path dpi ov al pw w).1 !! q).
Proof.
  intros Hq.
  destruct (convert_pdf_cases pdf_path dpi ov al pw w)
    as [[-> _]|[(pix&->&_)|[(doc&f1&_&_&_&Hmk&->&_)|
        [(doc&e&_&_&_&_&->&_)|(_&->&_)]]]]; try done.
  - rewrite lookup_insert. by case_decide.
  - apply page_loop_never_removes. simpl.
    by rewrite (mkdir_from_preserves _ _ _ _ _ Hmk).
Qed.

(** X7: a conversion touches only its own outputs.  With a [plain] stem
    (not [.] or [..]), for a path that is neither the PNG beside the
    source nor a page PNG inside the directory named after the source: the
    entry it held before (a file with its content, or a directory), it
    holds afterwards, overwrite or not; and when it is not on the way to
    that directory either, it is as before even if nothing was there. *)
Theorem convert_pdf_writes_beside_source pdf_path dpi ov al pw w q :
  plain (stem pdf_path) →
  q ≠ joinpath (parent pdf_path) (single_name (stem pdf_path)) →
  (∀ i, q ≠ page_target pdf_path
              (joinpath (parent pdf_path) (stem pdf_path)) i) →
  (∀ n, fs w !! q = Some n →
        fs (convert_pdf pdf_path dpi ov al pw w).1 !! q = Some n) ∧
  (¬ q `prefix_of` joinpath (parent pdf_path) (stem pdf_path) →
   fs (convert_pdf pdf_path dpi ov al pw w).1 !! q = fs w !! q).
Proof.
  intros _ Hsingle Hpage. split.
  - intros n Hq. rewrite <- Hq. apply convert_pdf_frame; [done..|].
    intros _. by rewrite Hq.
  - intros Hoff. apply convert_pdf_frame; [done..|]. by intros ?.
Qed.

Lemma string_app_assoc (s t u : string) : (s +:+ t) +:+ u = s +:+ t +:+ u.
Proof.
  induction s as [|a s IH]; [done|].
  change (String a ((s +:+ t) +:+ u) = String a (s +:+ t +:+ u)).
  by rewrite IH.
Qed.

(** A name that ends in [.png] does not pass as a PDF. *)
Lemma png_name_not_pdf (s : string) :
  lower (suffix_of (s +:+ ".png")) ≠ ".pdf".
Proof.
  intros [Hglob _]%glob_agrees_with_suffix.
  apply fnmatch_pdf_pattern in Hglob
    as (pre & c1 & c2 & c3 & Heq & _ & _ & H3).
  apply (f_equal String.list_ascii_of_string) in Heq.
  rewrite !list_ascii_of_string_app in Heq.
  apply app_inj_2 in Heq as [_ Heq]; [|done].
  simpl in Heq. injection Heq as _ _ <-.
  rewrite !elem_of_cons, elem_of_nil in H3.
  destruct H3 as [?|[?|[]]]; discriminate.
Qed.

(** X8: no regular file whose suffix is [.pdf], in any mix of cases, is
    ever replaced or removed by a conversion, whatever the options:
    neither the source nor any other PDF lying around. *)
Theorem convert_pdf_never_alters_a_pdf pdf_path dpi ov al pw w q c :
  fs w !! q = Some (File c) →
  lower (suffix q) = ".pdf" →
  fs (convert_pdf pdf_path dpi ov al pw w).1 !! q = Some (File c).
Proof.
  intros Hq Hsuf. rewrite convert_pdf_frame; [done| | |by rewrite Hq].
  - intros ->. destruct (png_name_not_pdf (stem pdf_path)).
    unfold suffix in Hsuf. by rewrite name_joinpath in Hsuf.
  - intros i ->.
    destruct (png_name_not_pdf
                (stem pdf_path +:+ " - Pg " +:+ pretty (i + 1)%nat)).
    unfold suffix, page_target, page_name in Hsuf.
    rewrite name_joinpath in Hsuf. by rewrite !string_app_assoc.
Qed.

(** ** The plain case of one page *)

(** X9: a readable one-page document whose target is free and whose page
    renders, at a DPI that converts to a float: the PNG is written beside
    the source under [<stem>.png], at the requested zoom and with the
    requested alpha, one [OK] line is logged, and nothing else changes,
    whatever the overwrite flag. *)
Theorem convert_pdf_single_page_fresh pdf_path dpi ov al pw doc pg w :
  fs w !! pdf_path = Some (File (Pdf doc)) →
  unlocked doc pw →
  dpi < float_overflow →
  pages doc = [pg] →
  page_fault pg = None →
  fs w !! joinpath (parent pdf_path) (single_name (stem pdf_path)) = None →
  convert_pdf pdf_path dpi ov al pw w =
    (add_log (ok_single_line pdf_path
                (joinpath (parent pdf_path) (single_name (stem pdf_path))))
       (set_fs <[joinpath (parent pdf_path) (single_name (stem pdf_path))
                 := File (Png {| pix_art := page_art pg;
                                 pix_matrix := zoom dpi;
                                 pix_alpha := al |})]> w),
     inr tt).
Proof.
  intros Hdoc Hopen Hdpi Hpages Hfault Hfree.
  rewrite (convert_pdf_opened _ _ _ _ _ doc) by done.
  rewrite (convert_opened_single doc pg) by (by apply unlocked_gate || done).
  simpl. rewrite blocked_not_dir by (by rewrite Hfree).
  rewrite Hfree, Hfault.
  rewrite bool_decide_eq_false_2 by (by intros [? ?]). done.
Qed.

(** X10: a readable one-page document whose target is free and whose page
    does not render, at a DPI that converts to a float: one [WARN] line
    with the reason is logged, no file is written, and the call
    returns. *)
Theorem convert_pdf_single_page_render_failure
    pdf_path dpi ov al pw doc pg msg w :
  fs w !! pdf_path = Some (File (Pdf doc)) →
  unlocked doc pw →
  dpi < float_overflow →
  pages doc = [pg] →
  page_fault pg = Some msg →
  fs w !! joinpath (parent pdf_path) (single_name (stem pdf_path)) = None →
  convert_pdf pdf_path dpi ov al pw w =
    (add_log (render_warn_line pdf_path 1 (RuntimeError msg)) w, inr tt).
Proof.
  intros Hdoc Hopen Hdpi Hpages Hfault Hfree.
  rewrite (convert_pdf_opened _ _ _ _ _ doc) by done.
  rewrite (convert_opened_single doc pg) by (by apply unlocked_gate || done).
  simpl. rewrite Hfree, Hfault.
  rewrite bool_decide_eq_false_2 by (by intros [? ?]). done.
Qed.

(** ** Batches *)

Section Batches.
Context `{PathEnv}.

(** X15: when no PDF on the machine has more than one page, every input
    expands and is tested without an error, and the DPI converts to a
    float, the command line runs to its end: discovery returns its list,
    [_main] returns 1 when nothing is found and 0 otherwise, that is the
    exit status, and no exception leaves it. *)
Theorem main_single_page_batch args w :
  (∀ raw, raw ∈ inputs args → input_error raw = None) →
  dpi args < float_overflow →
  (∀ q doc, fs w !! q = Some (File (Pdf doc)) → (page_count doc ≤ 1)%nat) →
  find_pdfs_call (fs w) (inputs args) = inr (find_pdfs (fs w) (inputs args)) ∧
  (_main args w).2
    = inr (if decide (find_pdfs (fs w) (inputs args) = []) then 1 else 0) ∧
  exit_status args w
    = (if decide (find_pdfs (fs w) (inputs args) = []) then 1 else 0).
Proof.
  intros Hinputs Hdpi Hflat.
  split; [by apply find_pdfs_call_returns|].
  assert ((_main args w).2
          = inr (if decide (find_pdfs (fs w) (inputs args) = []) then 1 else 0))
    as Hmain.
  { case_decide as Hfound.
    - by rewrite (proj1 (main_nothing_found args w Hfound)).
    - rewrite (main_found args w Hfound). simpl.
      destruct (for_each_inv
        (λ w', ∀ q doc, fs w' !! q = Some (File (Pdf doc)) →
                        (page_count doc ≤ 1)%nat)
        (find_pdfs (fs w) (inputs args))
        (λ pdf, convert_pdf pdf (dpi args) (overwrite args) (alpha args)
                  (password args))) with (w := w) as [Hr _]; [|done|].
      + intros pdf w' _ Hw'. split.
        * destruct (convert_pdf _ _ _ _ _ w').2 as [e|[]] eqn:E; [|done].
          apply convert_pdf_raises in E as (doc & q & c & Hdoc & Hn & _);
            [|done].
          apply Hw' in Hdoc. lia.
        * intros q doc [Hq|[?|(pix&?&_)]]%convert_pdf_pixmaps; try done.
          by apply (Hw' q).
      + by rewrite Hr. }
  split; [done|]. unfold exit_status. by rewrite Hmain.
Qed.

End Batches.

(** ** Discovery over several inputs *)

Section DiscoveryMore.
Context `{PathEnv}.

Lemma visit_fold_filter (l : list Path) : ∀ st : gset Path * list Path,
  (∀ x, x ∈ st.1 ↔ x ∈ st.2) →
  (foldl visit st l).2 =
  st.2 ++ filter (λ x, x ∉ st.2) (foldl visit (∅, []) l).2.
Proof.
  induction l as [|p l IH]; intros st Hagree; simpl.
  - by rewrite filter_nil, app_nil_r.
  - assert (visit (∅, []) p = ({[p]} ∪ ∅, [p])) as ->.
    { unfold visit. rewrite decide_False; [done|]. simpl. apply not_elem_of_empty. }
    rewrite (IH ({[p]} ∪ ∅, [p]))
      by (intros x; simpl; rewrite elem_of_union, elem_of_singleton,
            list_elem_of_singleton, elem_of_empty; tauto).
    simpl. destruct (decide (p ∈ st.1)) as [Hin|Hout].
    + assert (visit st p = st) as -> by (unfold visit; by rewrite decide_True).
      rewrite (IH st Hagree). f_equal.
      rewrite filter_cons_False by (intros Hp; by apply Hp, Hagree).
      rewrite list_filter_filter. apply list_filter_iff.
      intros x. split; [|tauto]. intros Hx. split; [done|].
      intros ->%list_elem_of_singleton. by apply Hx, Hagree.
    + assert (visit st p = ({[p]} ∪ st.1, st.2 ++ [p])) as ->
        by (unfold visit; by rewrite decide_False).
      rewrite IH; simpl.
      * rewrite <- app_assoc. f_equal.
        rewrite filter_cons_True by (intros Hp; by apply Hout, Hagree).
        simpl. f_equal. rewrite list_filter_filter. apply list_filter_iff.
        intros x. rewrite elem_of_app. tauto.
      * intros x. rewrite elem_of_union, elem_of_singleton, elem_of_app,
          list_elem_of_singleton, Hagree. tauto.
Qed.

Lemma filter_none_new (known found : list Path) :
  (∀ x, x ∈ found → x ∈ known) → filter (λ p, p ∉ known) found = [].
Proof.
  induction found as [|x found IH]; intros Hsub; [done|].
  rewrite filter_cons_False by (intros Hx; apply Hx, Hsub; by left).
  apply IH. intros y Hy. apply Hsub. by right.
Qed.

(** X14: discovery over two lists of inputs, one after the other, is
    discovery over the first followed by what the second adds: its own
    result, in order, without the paths the first had already found. So
    giving the same inputs twice changes nothing. *)
Theorem find_pdfs_app fs l1 l2 :
  find_pdfs fs (l1 ++ l2) =
    find_pdfs fs l1 ++ filter (λ p, p ∉ find_pdfs fs l1) (find_pdfs fs l2) ∧
  find_pdfs fs (l1 ++ l1) = find_pdfs fs l1.
Proof.
  assert (∀ k1 k2, find_pdfs fs (k1 ++ k2) =
            find_pdfs fs k1
              ++ filter (λ p, p ∉ find_pdfs fs k1) (find_pdfs fs k2)) as Happ.
  { intros k1 k2. rewrite !find_pdfs_encounters, encounters_app, foldl_app.
    apply visit_fold_filter.
    apply (visit_fold_spec (encounters fs k1) (∅, []) empty_seen_agrees
             (NoDup_nil_2)). }
  split; [apply Happ|].
  rewrite Happ.
  rewrite filter_none_new; [by rewrite app_nil_r|done].
Qed.

End DiscoveryMore.


(** * The desktop interface *)

(** ** Splitting a drop payload *)

Lemma split_char_clean st ch :
  (∀ s, s ∈ items st → s ≠ EmptyString ∧ clean s) → clean (token st) →
  0 ≤ brace st →
  (∀ s, s ∈ items (split_char st ch) → s ≠ EmptyString ∧ clean s) ∧
  clean (token (split_char st ch)) ∧ 0 ≤ brace (split_char st ch).
Proof.
  intros Hitems Htoken Hbrace. unfold split_char.
  case_bool_decide as Hopen; simpl; [split; [done|]; split; [done|lia]|].
  case_bool_decide as Hclose; simpl; [split; [done|]; split; [done|lia]|].
  destruct (bool_decide (ch = " "%char) && (brace st =? 0)).
  - case_bool_decide as Htok; simpl; [|done].
    split; [|split; [|done]].
    + intros s [Hs| ->%list_elem_of_singleton]%elem_of_app; [by apply Hitems|done].
    + by intros c ?%elem_of_nil.
  - simpl. split; [done|]. split; [|done].
    intros c. rewrite list_ascii_of_string_app. simpl.
    intros [Hc| ->%list_elem_of_singleton]%elem_of_app; [by apply Htoken|done].
Qed.

Lemma split_loop_clean data : ∀ st,
  (∀ s, s ∈ items st → s ≠ EmptyString ∧ clean s) → clean (token st) →
  0 ≤ brace st →
  (∀ s, s ∈ items (split_loop data st) → s ≠ EmptyString ∧ clean s) ∧
  clean (token (split_loop data st)) ∧ 0 ≤ brace (split_loop data st).
Proof.
  induction data as [|ch data IH]; intros st Hitems Htoken Hbrace; simpl.
  - done.
  - destruct (split_char_clean st ch Hitems Htoken Hbrace) as (?&?&?).
    by apply IH.
Qed.

(** X16: no piece that [_split_dnd_paths] cuts out of a payload is empty,
    and none contains a brace, whatever the payload: nested braces and
    unmatched ones included. *)
Theorem split_items_clean data s :
  s ∈ split_items data → s ≠ EmptyString ∧ clean s.
Proof.
  unfold split_items.
  destruct (split_loop_clean data
              {| items := []; token := EmptyString; brace := 0 |})
    as (Hitems & Htoken & _); simpl; try done.
  { intros ? ?%elem_of_nil. done. }
  { by intros c ?%elem_of_nil. }
  case_bool_decide as Htok; [|apply Hitems].
  intros [Hs| ->%list_elem_of_singleton]%elem_of_app; [by apply Hitems|done].
Qed.


(** *** A payload of grouped names gives the names back *)

Lemma split_loop_app s t : ∀ st,
  split_loop (s +:+ t) st = split_loop t (split_loop s st).
Proof. induction s as [|a s IH]; intros st; [done|]. apply IH. Qed.

(** Characters that are neither braces nor separating spaces pile up in
    the token. *)
Lemma split_loop_run s : ∀ its tok b,
  clean s →
  (b = 0 → " "%char ∉ String.list_ascii_of_string s) →
  split_loop s {| items := its; token := tok; brace := b |}
  = {| items := its; token := tok +:+ s; brace := b |}.
Proof.
  induction s as [|a s IH]; intros its tok b Hclean Hspace; simpl.
  - f_equal. induction tok as [|c tok IHt]; [done|].
    change (String c tok = String c (tok +:+ EmptyString)). by rewrite <- IHt.
  - destruct (Hclean a) as [Ho Hc]; [by left|].
    unfold split_char. simpl.
    rewrite !bool_decide_eq_false_2 by done.
    replace (bool_decide (a = " "%char) && (b =? 0)) with false.
    + rewrite IH.
      * f_equal. rewrite string_app_assoc. done.
      * intros c Hin. apply Hclean. by right.
      * intros Hb Hin. apply (Hspace Hb). by right.
    + symmetry. apply andb_false_iff.
      destruct (decide (b = 0)) as [Hb|Hb].
      * left. apply bool_decide_eq_false. intros ->. apply (Hspace Hb). by left.
      * right. by apply Z.eqb_neq.
Qed.

Lemma split_loop_item s its :
  clean s →
  split_loop (dnd_item s) {| items := its; token := EmptyString; brace := 0 |}
  = {| items := its; token := s; brace := 0 |}.
Proof.
  intros Hclean. unfold dnd_item, has_space. case_bool_decide as Hsp.
  - change ("{" +:+ s +:+ "}") with (String "{" (s +:+ "}")).
    cbn [split_loop].
    change (split_char {| items := its; token := EmptyString; brace := 0 |} "{")
      with {| items := its; token := EmptyString; brace := 1 |}.
    rewrite split_loop_app, split_loop_run by done. done.
  - by rewrite split_loop_run.
Qed.

Lemma split_loop_payload names : ∀ its s,
  (∀ x, x ∈ s :: names → x ≠ EmptyString ∧ clean x) →
  split_loop (dnd_payload (s :: names))
    {| items := its; token := EmptyString; brace := 0 |}
  = {| items := its ++ removelast (s :: names);
       token := List.last (s :: names) EmptyString; brace := 0 |}.
Proof.
  induction names as [|s' names IH]; intros its s Hall.
  - simpl dnd_payload. rewrite split_loop_item by (apply Hall; by left).
    simpl. by rewrite app_nil_r.
  - change (dnd_payload (s :: s' :: names))
      with (dnd_item s +:+ " " +:+ dnd_payload (s' :: names)).
    rewrite split_loop_app, split_loop_item by (apply Hall; by left).
    change (" " +:+ dnd_payload (s' :: names))
      with (String " " (dnd_payload (s' :: names))).
    cbn [split_loop].
    assert (split_char {| items := its; token := s; brace := 0 |} " "
            = {| items := its ++ [s]; token := EmptyString; brace := 0 |}) as ->.
    { unfold split_char. simpl.
      by rewrite bool_decide_eq_true_2 by (apply Hall; by left). }
    rewrite IH by (intros x Hx; apply Hall; by right).
    f_equal. by rewrite <- app_assoc.
Qed.

Lemma last_elem_of {A} (l : list A) (d : A) : l ≠ [] → List.last l d ∈ l.
Proof.
  induction l as [|x [|y l] IH]; intros Hne; [done|by left|].
  right. by apply IH.
Qed.

Lemma split_items_payload names :
  (∀ s, s ∈ names → s ≠ EmptyString ∧ clean s) →
  split_items (dnd_payload names) = names.
Proof.
  intros Hall. destruct names as [|s names]; [done|].
  unfold split_items. rewrite split_loop_payload by done.
  cbn [token items].
  rewrite bool_decide_eq_true_2 by (by apply Hall, last_elem_of).
  symmetry. by apply app_removelast_last.
Qed.

Section DropPayload.
Context `{PathEnv}.

(** X17: names handed over the way tkinterdnd2 does it (separated by spaces,
    those with a space inside wrapped in braces) come back from
    [_split_dnd_paths] one for one and in order, each resolved, provided no
    name is empty, has a brace in it, begins or ends with white space
    (Unicode white space included), or makes the expansion of [~] or the
    resolution raise. *)
Theorem split_dnd_paths_payload names :
  (∀ s, s ∈ names →
     s ≠ EmptyString ∧ clean s ∧ strip s = s ∧ input_error s = None) →
  _split_dnd_paths (dnd_payload names) = expand_resolve <$> names.
Proof.
  intros Hall. unfold _split_dnd_paths.
  rewrite split_items_payload by (intros s Hs; by destruct (Hall s Hs) as (?&?&?)).
  induction names as [|s names IH]; [done|].
  destruct (Hall s) as (Hne & _ & Hstrip & _); [by left|].
  rewrite filter_cons_True by (by rewrite Hstrip).
  simpl. rewrite Hstrip. f_equal. apply IH.
  intros x Hx. apply Hall. by right.
Qed.

End DropPayload.


(** ** The target list *)

Lemma refresh_rows (l : list Path) : ∀ rows,
  foldl (λ rows p, rows ++ [to_str p]) rows l = rows ++ (to_str <$> l).
Proof.
  induction l as [|p l IH]; intros rows; simpl.
  - by rewrite app_nil_r.
  - by rewrite IH, <- app_assoc.
Qed.

Lemma refresh_tidy app : NoDup (targets app) → tidy (_refresh_targets app).
Proof.
  intros Hnd. split; [done|]. split; [|done].
  simpl. by rewrite refresh_rows.
Qed.

(** A loop that appends a path only when it is not yet in the list. *)
Lemma append_new_fold {B} (step : list Path → B → list Path) (l : list B) :
  (∀ acc x, step acc x = acc ∨ ∃ p, (p ∉ acc) ∧ step acc x = acc ++ [p]) →
  ∀ acc, NoDup acc →
    NoDup (foldl step acc l) ∧ acc `prefix_of` foldl step acc l.
Proof.
  intros Hstep. induction l as [|x l IH]; intros acc Hnd; simpl; [done|].
  destruct (Hstep acc x) as [->|(p & Hp & ->)]; [by apply IH|].
  destruct (IH (acc ++ [p])) as [Hnd' Hpre].
  - apply NoDup_app. split; [done|]. split; [|apply NoDup_singleton].
    by intros y Hy ->%list_elem_of_singleton.
  - split; [done|]. etrans; [|done]. by exists [p].
Qed.

Section TargetList.
Context `{PathEnv}.

(** The test and append of [_on_drop_files] and of [main]. *)
Local Abbreviation add_existing fs :=
  (λ (acc : list Path) (p : Path),
     if bool_decide (is_Some (fs !! p)) && bool_decide (p ∉ acc)
     then acc ++ [p] else acc).

Lemma add_existing_step (fs : gmap Path Node) acc p :
  add_existing fs acc p = acc ∨
  ∃ q, (q ∉ acc) ∧ add_existing fs acc p = acc ++ [q].
Proof.
  simpl. destruct (bool_decide (is_Some (fs !! p))); simpl; [|by left].
  case_bool_decide; [right; by exists p|by left].
Qed.

Lemma add_existing_elem (fs : gmap Path Node) l : ∀ acc p,
  p ∈ foldl (add_existing fs) acc l ↔
  p ∈ acc ∨ (p ∈ l ∧ is_Some (fs !! p)).
Proof.
  induction l as [|x l IH]; intros acc p; simpl.
  - rewrite elem_of_nil. tauto.
  - rewrite IH, elem_of_cons.
    case_bool_decide as Hex; simpl.
    + case_bool_decide as Hnew.
      * rewrite elem_of_app, list_elem_of_singleton. split.
        -- intros [[?|Heq]|[? ?]]; [by left| |by right; split; [right|]].
           right. split; [by left|by rewrite Heq].
        -- intros [?|[[Heq|?] ?]]; [by left; left|by left; right|by right].
      * split.
        -- intros [?|[? ?]]; [by left|by right; split; [right|]].
        -- intros [?|[[Heq|?] ?]]; [by left| |by right].
           left. rewrite Heq. apply dec_stable. by intros ?.
    + split.
      * intros [?|[? ?]]; [by left|by right; split; [right|]].
      * intros [?|[[Heq|?] Hp]]; [by left| |by right].
        destruct Hex. by rewrite <- Heq.
Qed.

Lemma drop_fold (fs : gmap Path Node) l : ∀ acc flag,
  let r := foldl (λ (acc : list Path * bool) p,
                    if bool_decide (is_Some (fs !! p))
                       && bool_decide (p ∉ fst acc)
                    then (fst acc ++ [p], true) else acc) (acc, flag) l in
  fst r = foldl (add_existing fs) acc l ∧
  (flag = true → snd r = true) ∧
  (snd r = false → fst r = acc) ∧
  (snd r = true → flag = true ∨ (length acc < length (fst r))%nat) ∧
  (length acc ≤ length (fst r))%nat.
Proof.
  induction l as [|x l IH]; intros acc flag; simpl.
  { split; [done|]. split; [done|]. split; [done|]. split; [by left|lia]. }
  destruct (bool_decide (is_Some (fs !! x)) && bool_decide (x ∉ acc)).
  - destruct (IH (acc ++ [x]) true) as (Hfold & Hflag & _ & _ & Hlen).
    rewrite length_app in Hlen. simpl in Hlen.
    split; [done|]. split; [by intros _; apply Hflag|].
    split; [intros Hfalse; rewrite Hflag in Hfalse; done|].
    split; [intros _; right; lia|lia].
  - apply IH.
Qed.

Lemma on_drop_files_targets fs data app :
  targets (_on_drop_files fs data app) =
    foldl (add_existing fs) (targets app) (_split_dnd_paths data).
Proof.
  unfold _on_drop_files.
  destruct (drop_fold fs (_split_dnd_paths data) (targets app) false)
    as (Hfold & _).
  set (r := foldl _ _ _) in *. rewrite <- Hfold. by destruct (snd r).
Qed.

Lemma on_drop_files_tidy fs data app :
  tidy app → tidy (_on_drop_files fs data app).
Proof.
  intros (Hnd & Hrows & Hph).
  assert (NoDup (targets (_on_drop_files fs data app))) as Hnd'.
  { rewrite on_drop_files_targets.
    by apply (append_new_fold (add_existing fs) _ (add_existing_step fs)). }
  revert Hnd'. unfold _on_drop_files.
  destruct (drop_fold fs (_split_dnd_paths data) (targets app) false)
    as (_ & _ & Hflag & _).
  set (r := foldl _ _ _) in *.
  destruct (snd r) eqn:Hadded; intros Hnd'.
  - by apply refresh_tidy.
  - simpl in *. rewrite Hflag by done. done.
Qed.

(** X18: dropping files adds, after the targets already there, exactly the
    dropped paths that exist and are not yet targets, each once; and a drop
    that adds nothing leaves the interface as it is, listbox included. *)
Theorem on_drop_files_adds fs data app :
  NoDup (targets app) →
  NoDup (targets (_on_drop_files fs data app)) ∧
  targets app `prefix_of` targets (_on_drop_files fs data app) ∧
  (∀ p, p ∈ targets (_on_drop_files fs data app) ↔
        p ∈ targets app ∨
        (p ∈ _split_dnd_paths data ∧ is_Some (fs !! p))) ∧
  (targets (_on_drop_files fs data app) = targets app →
   _on_drop_files fs data app = app).
Proof.
  intros Hnd. split; [|split; [|split]].
  - rewrite on_drop_files_targets.
    by apply (append_new_fold (add_existing fs) _ (add_existing_step fs)).
  - rewrite on_drop_files_targets.
    by apply (append_new_fold (add_existing fs) _ (add_existing_step fs)).
  - intros p. rewrite on_drop_files_targets. apply add_existing_elem.
  - unfold _on_drop_files.
    destruct (drop_fold fs (_split_dnd_paths data) (targets app) false)
      as (_ & _ & Hsame & Hgrew & _).
    set (r := foldl _ _ _) in *.
    destruct (snd r) eqn:Hadded.
    + cbn [targets _refresh_targets set_targets]. intros Heq.
      destruct Hgrew as [?|Hlen]; [done..|]. rewrite Heq in Hlen. lia.
    + intros _. rewrite Hsame by done. by destruct app.
Qed.

End TargetList.

Section TargetStates.
Context `{PathEnv}.

Lemma main_tidy fs argv : tidy (main fs argv).
Proof.
  unfold main, App_init. apply refresh_tidy. simpl.
  apply (append_new_fold
           (λ initial raw,
              if bool_decide (is_Some (fs !! expand_resolve raw))
                 && bool_decide (expand_resolve raw ∉ initial)
              then initial ++ [expand_resolve raw] else initial)).
  - intros acc raw. simpl.
    destruct (bool_decide (is_Some (fs !! expand_resolve raw))); [|by left].
    simpl. case_bool_decide; [right; by exists (expand_resolve raw)|by left].
  - apply NoDup_nil_2.
Qed.

Lemma add_pdfs_tidy fs paths app : tidy app → tidy (_add_pdfs fs paths app).
Proof.
  intros Htidy. unfold _add_pdfs.
  destruct paths as [|s paths]; [done|].
  destruct Htidy as (Hnd & _ & _).
  apply refresh_tidy. cbn [targets set_targets].
  apply (append_new_fold
           (λ tg s,
              if is_file fs (expand_resolve s)
                 && bool_decide (lower (suffix (expand_resolve s)) = ".pdf")
                 && bool_decide (expand_resolve s ∉ tg)
              then tg ++ [expand_resolve s] else tg)); [|done].
  intros acc raw. simpl.
  destruct (is_file fs (expand_resolve raw) && bool_decide _); [|by left].
  simpl. case_bool_decide; [right; by exists (expand_resolve raw)|by left].
Qed.

Lemma add_folder_tidy fs folder app :
  tidy app → tidy (_add_folder fs folder app).
Proof.
  intros Htidy. unfold _add_folder.
  case_bool_decide; [done|]. destruct Htidy as (Hnd & _ & _).
  apply refresh_tidy.
  destruct (is_dir fs (expand_resolve folder)); simpl; [|done].
  case_bool_decide as Hnew; [|done]. simpl.
  apply NoDup_app. split; [done|]. split; [|apply NoDup_singleton].
  by intros y Hy ->%list_elem_of_singleton.
Qed.

Lemma del_fold_sublist {A} (idxs : list nat) : ∀ (l tg : list A),
  foldl (λ acc idx, acc ≫= del_at idx) (Some l) idxs = Some tg →
  tg `sublist_of` l.
Proof.
  induction idxs as [|i idxs IH]; intros l tg; simpl.
  - by intros [= ->].
  - unfold del_at at 2. case_bool_decide; simpl.
    + intros Htg%IH. etrans; [done|]. apply sublist_delete.
    + intros Hnone. exfalso. revert Hnone. clear.
      induction idxs as [|j idxs IHj]; simpl; [done|apply IHj].
Qed.

Lemma remove_selected_tidy sel app app' :
  tidy app → _remove_selected sel app = Some app' → tidy app'.
Proof.
  intros (Hnd & _ & _). unfold _remove_selected.
  destruct (foldl _ _ _) as [tg|] eqn:Hfold; [|done].
  intros [= <-]. apply refresh_tidy. simpl.
  apply del_fold_sublist in Hfold. by eapply sublist_NoDup.
Qed.

(** X20: in every state the interface can get into, from [main] on and
    through any sequence of drops, additions, removals and clearings: no
    target is listed twice, the listbox shows [str(p)] for the targets row
    by row in their order, and the placeholder is shown exactly when the
    list is empty. *)
Theorem reachable_tidy app :
  reachable app →
  NoDup (targets app) ∧
  listbox app = to_str <$> targets app ∧
  placeholder app = bool_decide (targets app = []).
Proof.
  induction 1 as [fs argv|fs a app app' _ IH Hstep].
  - apply main_tidy.
  - destruct a as [data|paths|folder|sel|]; simpl in Hstep.
    + injection Hstep as <-. by apply on_drop_files_tidy.
    + injection Hstep as <-. by apply add_pdfs_tidy.
    + injection Hstep as <-. by apply add_folder_tidy.
    + by apply (remove_selected_tidy sel app).
    + injection Hstep as <-. by apply refresh_tidy, NoDup_nil_2.
Qed.

End TargetStates.


(** *** Removing the selected rows *)

Lemma rows_without_skip {A} (sel : list nat) (k : nat) (l : list A) :
  ∀ start, (k < start)%nat →
  rows_without (k :: sel) start l = rows_without sel start l.
Proof.
  induction l as [|x l IH]; intros start Hk; simpl; [done|].
  rewrite (IH (S start)) by lia.
  assert (bool_decide (start ∈ k :: sel) = bool_decide (start ∈ sel)) as ->.
  { apply bool_decide_ext. rewrite elem_of_cons. split; [|by right].
    intros [?|?]; [lia|done]. }
  done.
Qed.

Lemma delete_rows_without {A} (sel : list nat) (l : list A) :
  ∀ start j,
  Forall (λ r, start + j < r)%nat sel → (j < length l)%nat →
  (j < length (rows_without sel start l))%nat ∧
  delete j (rows_without sel start l)
  = rows_without ((start + j)%nat :: sel) start l.
Proof.
  induction l as [|x l IH]; intros start j Hsel Hj; simpl in *; [lia|].
  assert (start ∉ sel) as Hstart.
  { intros Hin. rewrite Forall_forall in Hsel. apply Hsel in Hin. lia. }
  rewrite (bool_decide_eq_false_2 (start ∈ sel)) by done.
  destruct j as [|j].
  - rewrite Nat.add_0_r.
    rewrite bool_decide_eq_true_2 by (by left).
    simpl. split; [lia|]. by rewrite rows_without_skip by lia.
  - rewrite bool_decide_eq_false_2
      by (rewrite elem_of_cons; intros [?|?]; [lia|done]).
    destruct (IH (S start) j) as [Hlen Hdel]; [|lia|].
    { eapply Forall_impl; [done|]. simpl. intros r Hr. lia. }
    simpl. split; [lia|]. rewrite Hdel.
    by replace (S start + j)%nat with (start + S j)%nat by lia.
Qed.

Lemma rows_without_none {A} (l : list A) : ∀ start,
  rows_without [] start l = l.
Proof.
  induction l as [|x l IH]; intros start; simpl; [done|]. by rewrite IH.
Qed.

Lemma del_fold_rows {A} (sel : list nat) : ∀ (l : list A),
  StronglySorted lt sel →
  Forall (λ i, i < length l)%nat sel →
  foldl (λ acc idx, acc ≫= del_at idx) (Some l) (reverse sel)
  = Some (rows_without sel 0 l).
Proof.
  induction sel as [|i sel IH]; intros l Hsorted Hrange.
  - simpl. by rewrite rows_without_none.
  - apply StronglySorted_inv in Hsorted as [Hsorted Hlt].
    apply Forall_cons in Hrange as [Hi Hrange].
    rewrite reverse_cons, foldl_app. simpl. rewrite IH by done. simpl.
    destruct (delete_rows_without sel l 0 i) as [Hlen Hdel]; [done|done|].
    unfold del_at. rewrite bool_decide_eq_true_2 by done.
    by rewrite Hdel.
Qed.

(** X19: with the selection as the listbox reports it (row numbers in
    increasing order, all within the list), [_remove_selected] removes
    exactly the selected targets and keeps the others in their order. *)
Theorem remove_selected_rows sel app :
  StronglySorted lt sel →
  Forall (λ i, i < length (targets app))%nat sel →
  _remove_selected sel app =
    Some (_refresh_targets
            (set_targets (rows_without sel 0 (targets app)) app)).
Proof.
  intros Hsorted Hrange. unfold _remove_selected.
  by rewrite del_fold_rows.
Qed.


(** ** What goes to the log *)

Lemma appends_quiet {A} P (c : M A) :
  (∀ w, log (c w).1 = log w) → appends P c.
Proof. intros Hq w. exists []. by rewrite Hq, app_nil_r. Qed.

Lemma appends_ret {A} P (x : A) : appends P (mret x).
Proof. by apply appends_quiet. Qed.

Lemma appends_say (P : string → Prop) msg : P msg → appends P (_say msg).
Proof. intros HP w. exists [msg]. split; [done|]. by apply Forall_singleton. Qed.

Lemma appends_bind {A B} P (c : M A) (f : A → M B) :
  appends P c → (∀ x, appends P (f x)) → appends P (c ≫= f).
Proof.
  intros Hc Hf w. destruct (Hc w) as (l1 & Hl1 & HP1).
  unfold mbind, M_bind. destruct (c w) as [w' [e|x]]; simpl in *.
  - by exists l1.
  - destruct (Hf x w') as (l2 & Hl2 & HP2). exists (l1 ++ l2).
    split; [by rewrite Hl2, Hl1, app_assoc|by apply Forall_app].
Qed.

Lemma appends_attempt {A} P (c : M A) : appends P c → appends P (attempt c).
Proof.
  intros Hc w. destruct (Hc w) as (l1 & Hl1 & HP1).
  unfold attempt. destruct (c w). by exists l1.
Qed.

Lemma appends_try_except {A} P (c : M A) (h : Exn → M A) :
  appends P c → (∀ e, appends P (h e)) → appends P (try_except c h).
Proof.
  intros Hc Hh w. destruct (Hc w) as (l1 & Hl1 & HP1).
  unfold try_except. destruct (c w) as [w' [e|x]]; simpl in *.
  - destruct (Hh e w') as (l2 & Hl2 & HP2). exists (l1 ++ l2).
    split; [by rewrite Hl2, Hl1, app_assoc|by apply Forall_app].
  - by exists l1.
Qed.

Lemma appends_try_finally {A} P (c : M A) (f : M unit) :
  appends P c → appends P f → appends P (try_finally c f).
Proof.
  intros Hc Hf w. destruct (Hc w) as (l1 & Hl1 & HP1).
  unfold try_finally. destruct (c w) as [w' r]. simpl in *.
  destruct (Hf w') as (l2 & Hl2 & HP2).
  exists (l1 ++ l2).
  split; [|by apply Forall_app].
  destruct (f w') as [w'' [e|[]]]; simpl in *; by rewrite Hl2, Hl1, app_assoc.
Qed.

Lemma appends_for_each {A} P (l : list A) (body : A → M unit) :
  (∀ x, appends P (body x)) → appends P (for_each l body).
Proof.
  intros Hbody. induction l as [|x l IH]; simpl.
  - apply appends_ret.
  - apply appends_bind; [apply Hbody|by intros _].
Qed.

Ltac in_levels :=
  repeat first [apply list_elem_of_here | apply list_elem_of_further].

Lemma tagged_intro level rest :
  level ∈ ["OK"; "SKIP"; "WARN"; "ERROR"] →
  tagged ("[" +:+ level +:+ "] " +:+ rest).
Proof. intros Hl. by exists level, rest. Qed.

Lemma appends_render_save P doc i zm al out_png :
  appends P (render_save doc i zm al out_png).
Proof.
  apply appends_quiet. intros w.
  unfold render_save, load_page, get_pixmap, save. run.
  destruct (pages doc !! i) as [pg|]; [|done].
  destruct (page_fault pg); [done|].
  by destruct (blocked (fs w) out_png).
Qed.

Lemma appends_convert_page doc pdf_path out_dir zm ov al i :
  appends tagged (convert_page doc pdf_path out_dir zm ov al i).
Proof.
  unfold convert_page. apply appends_bind; [by apply appends_quiet|].
  intros ex. destruct (ex && negb ov).
  - apply appends_say. apply (tagged_intro "SKIP"). in_levels.
  - apply appends_try_except; [apply appends_render_save|].
    intros e. apply appends_say. apply (tagged_intro "WARN"). in_levels.
Qed.

Lemma appends_convert_opened doc pdf_path dpi ov al pw :
  appends tagged (convert_opened doc pdf_path dpi ov al pw).
Proof.
  unfold convert_opened.
  destruct (needs_pass doc && auth_fails doc pw).
  { apply appends_say. apply (tagged_intro "ERROR"). in_levels. }
  case_bool_decide.
  { apply appends_say. apply (tagged_intro "WARN"). in_levels. }
  destruct (float_overflow <=? Z.max dpi 1); [by apply appends_quiet|].
  case_bool_decide.
  - apply appends_bind; [by apply appends_quiet|].
    intros ex. destruct (ex && negb ov).
    { apply appends_say. apply (tagged_intro "SKIP"). in_levels. }
    apply appends_bind; [apply appends_attempt, appends_render_save|].
    intros [e|[]]; apply appends_say.
    + apply (tagged_intro "WARN"). in_levels.
    + apply (tagged_intro "OK"). in_levels.
  - apply appends_bind.
    { apply appends_quiet. intros w. unfold mkdir.
      by destruct (mkdir_from _ _ _). }
    intros _. apply appends_bind.
    + apply appends_for_each. intros i. apply appends_convert_page.
    + intros _. apply appends_say. apply (tagged_intro "OK"). in_levels.
Qed.

Lemma appends_convert_pdf pdf_path dpi ov al pw :
  appends tagged (convert_pdf pdf_path dpi ov al pw).
Proof.
  unfold convert_pdf. apply appends_bind.
  { apply appends_attempt, appends_quiet. intros w. unfold pymupdf_open.
    by destruct (fs w !! pdf_path) as [[[]|]|]. }
  intros [e|doc].
  { apply appends_say. apply (tagged_intro "ERROR"). in_levels. }
  apply appends_try_finally; [apply appends_convert_opened|].
  apply appends_try_except; [by apply appends_quiet|].
  intros e. apply appends_ret.
Qed.








(** ** Start *)

Lemma for_each_same_fs {A} (l : list A) (b1 b2 : A → M unit) :
  (∀ x w1 w2, fs w1 = fs w2 →
     fs (b1 x w1).1 = fs (b2 x w2).1 ∧ (b1 x w1).2 = (b2 x w2).2) →
  ∀ w1 w2, fs w1 = fs w2 →
    fs (for_each l b1 w1).1 = fs (for_each l b2 w2).1 ∧
    (for_each l b1 w1).2 = (for_each l b2 w2).2.
Proof.
  intros Hb. induction l as [|x l IH]; intros w1 w2 Hfs; simpl; [done|].
  unfold mbind, M_bind. destruct (Hb x w1 w2 Hfs) as [Hfs' Hr].
  destruct (b1 x w1) as [w1' [e1|[]]], (b2 x w2) as [w2' [e2|[]]];
    simpl in *; try congruence.
  - by split.
  - by apply IH.
Qed.

Lemma start_batch_like_main (l : list Path) d ov al pw found w :
  let r := (_say found;;
            for_each l (λ pdf, _say (arrow_line pdf);;
                               convert_pdf pdf d ov al pw);;
            _say done_line) w in
  let m := (for_each l (λ pdf, convert_pdf pdf d ov al pw);;
            mret 0 : M Z) w in
  fs r.1 = fs m.1 ∧
  match r.2 with
  | inr _ => m.2 = inr 0
  | inl e => m.2 = inl e
  end.
Proof.
  destruct (for_each_same_fs l
    (λ pdf, _say (arrow_line pdf);; convert_pdf pdf d ov al pw)
    (λ pdf, convert_pdf pdf d ov al pw))
    with (w1 := add_log found w) (w2 := w) as [Hfs Hr]; [|done|].
  { intros x w1 w2 Hw. unfold mbind, M_bind, _say. cbn beta iota.
    apply fs_only_convert_pdf. by destruct w1, w2. }
  cbv zeta. unfold mbind, M_bind, mret, M_ret, _say in *.
  cbn beta iota in *.
  destruct (for_each l _ (add_log found w)) as [w1 [e1|[]]],
           (for_each l _ w) as [w2 [e2|[]]];
    cbn [fst snd] in *; try congruence.
  - split; [done|]. congruence.
  - done.
Qed.

Lemma start_batch_log (l : list Path) d ov al pw found w :
  let r := (_say found;;
            for_each l (λ pdf, _say (arrow_line pdf);;
                               convert_pdf pdf d ov al pw);;
            _say done_line) w in
  ∃ mid,
    Forall (λ line, line ≠ done_line) mid ∧
    log r.1 = log w ++ [found] ++ mid
                ++ (if r.2 is inr _ then [done_line] else []).
Proof.
  destruct (appends_for_each (λ line, line ≠ done_line) l
    (λ pdf, _say (arrow_line pdf);; convert_pdf pdf d ov al pw))
    with (w := add_log found w) as (mid & Hmid & Hnot).
  { intros x. apply appends_bind; [by apply appends_say|]. intros _.
    intros w'. destruct (appends_convert_pdf x d ov al pw w')
      as (lines & Hlines & Htag).
    exists lines. split; [done|].
    eapply Forall_impl; [done|]. by intros line (lvl & rest & _ & ->). }
  exists mid. split; [done|].
  cbv zeta. unfold mbind, M_bind, mret, M_ret, _say in *.
  cbn beta iota in *.
  destruct (for_each l _ (add_log found w)) as [w1 [e1|[]]];
    cbn [fst snd log add_log] in *.
  - rewrite Hmid, app_nil_r. by rewrite <- app_assoc.
  - rewrite Hmid. by rewrite <- !app_assoc.
Qed.

Section Start.
Context `{PathEnv}.

(** X21: Start does to the files what the command line does: with targets in
    the list and a DPI that parses, it either finds no PDF, which is when
    [_main] on the same paths and options would return 1, or runs the batch,
    leaving the file system [_main] would leave and stopping on an exception
    exactly when [_main] would. *)
Theorem start_converts_like_main app dpi_var al ov password_var d w :
  targets app ≠ [] →
  py_int dpi_var = Some d →
  match _start app dpi_var al ov password_var w with
  | Refused box =>
      box = showinfo "No PDFs found"
              "No PDFs were found in the selected targets." ∧
      (_main {| inputs := to_str <$> targets app; dpi := d; alpha := al;
                overwrite := ov;
                password := start_password password_var |} w).2 = inr 1
  | Ran r =>
      fs r.1 =
        fs (_main {| inputs := to_str <$> targets app; dpi := d; alpha := al;
                     overwrite := ov;
                     password := start_password password_var |} w).1 ∧
      match r.2 with
      | inr _ =>
          (_main {| inputs := to_str <$> targets app; dpi := d; alpha := al;
                    overwrite := ov;
                    password := start_password password_var |} w).2 = inr 0
      | inl e =>
          (_main {| inputs := to_str <$> targets app; dpi := d; alpha := al;
                    overwrite := ov;
                    password := start_password password_var |} w).2 = inl e
      end
  end.
Proof.
  intros Htargets Hdpi. unfold _start, _main. cbn [inputs dpi alpha overwrite password].
  rewrite Hdpi.
  destruct (targets app) as [|t ts] eqn:Htg; [done|]. rewrite <- Htg.
  cbv zeta.
  destruct (find_pdfs (fs w) (to_str <$> targets app)) as [|pdf pdfs] eqn:Hfound.
  { done. }
  apply start_batch_like_main.
Qed.

(** X22: what Start writes to the log when it runs the batch: the [Found]
    line first, then for each PDF its arrow line and the lines of its
    conversion, and [Done] last, and [Done] only when no exception stopped
    the batch. *)
Theorem start_log_shape app dpi_var al ov password_var r w :
  _start app dpi_var al ov password_var w = Ran r →
  ∃ d mid,
    py_int dpi_var = Some d ∧
    Forall (λ line, line ≠ done_line) mid ∧
    log r.1 =
      log w
        ++ [found_line (length (find_pdfs (fs w) (to_str <$> targets app))) d]
        ++ mid ++ (if r.2 is inr _ then [done_line] else []).
Proof.
  unfold _start.
  destruct (targets app) as [|t ts] eqn:Htg; [done|]. rewrite <- Htg.
  destruct (py_int dpi_var) as [d|]; [|done]. cbv zeta.
  destruct (find_pdfs (fs w) (to_str <$> targets app)) as [|pdf pdfs] eqn:Hfound;
    [done|].
  intros [= <-]. exists d.
  destruct (start_batch_log (pdf :: pdfs) d ov al
              (start_password password_var)
              (found_line (length (pdf :: pdfs)) d) w) as (mid & Hnot & Hlog).
  by exists mid.
Qed.

End Start.

(** * The further properties on the sample machines *)

Import Desk.

(** There is no [gone.pdf] in [/docs]; the batch goes on to [b.pdf]. *)
Lemma convert_pdf_open_failure_witness :
  ∃ reason,
    convert_pdf ["docs"; "gone.pdf"] 600 false false None (start docs_fs) =
      (add_log ("[ERROR] Could not open 'gone.pdf': " +:+ reason)
         (start docs_fs), inr tt) ∧
    for_each [["docs"; "gone.pdf"]; ["docs"; "b.pdf"]]
      (λ pdf, convert_pdf pdf 600 false false None) (start docs_fs) =
    for_each [["docs"; "b.pdf"]]
      (λ pdf, convert_pdf pdf 600 false false None)
      (add_log ("[ERROR] Could not open 'gone.pdf': " +:+ reason)
         (start docs_fs)) ∧
    (fs (start docs_fs) !! ["docs"; "gone.pdf"] = None →
     reason = "no such file: '/docs/gone.pdf'").
Proof.
  apply (convert_pdf_open_failure ["docs"; "gone.pdf"] 600 false false None
           (start docs_fs) [["docs"; "b.pdf"]]).
  left. vm_compute. reflexivity.
Defined.

(** The regular file [LICENSE] stands where the pages of [LICENSE.pdf]
    would go; [b.pdf], next in the batch, is not reached. *)
Lemma convert_pdf_blocked_directory_witness :
  convert_pdf ["docs"; "LICENSE.pdf"] 600 false false None
    (start obstructed_fs)
  = (start obstructed_fs, inl (FileExistsError ["docs"; "LICENSE"])) ∧
  for_each [["docs"; "LICENSE.pdf"]; ["docs"; "b.pdf"]]
    (λ pdf, convert_pdf pdf 600 false false None) (start obstructed_fs)
  = (start obstructed_fs, inl (FileExistsError ["docs"; "LICENSE"])).
Proof.
  apply (convert_pdf_blocked_directory ["docs"; "LICENSE.pdf"] 600 false false
           None two_pages (Other "MIT") (start obstructed_fs)
           [["docs"; "b.pdf"]]).
  - vm_compute. reflexivity.
  - left. reflexivity.
  - reflexivity.
  - split; [|split]; intros Heq; vm_compute in Heq; discriminate.
  - vm_compute. lia.
  - intros q [k Hk] Hne. cbv in Hk.
    destruct q as [|a [|b q]]; [done| |discriminate Hk].
    injection Hk as <- _. vm_compute. reflexivity.
  - vm_compute. reflexivity.
Defined.

(** Converting the three pages of [r.pdf] leaves the [b.png] of an
    earlier run as it was. *)
Lemma convert_pdf_keeps_existing_witness :
  fs (convert_pdf ["docs"; "r.pdf"] 600 false false None (start docs_fs)).1
    !! ["docs"; "b.png"] = Some (File (Png old_pixmap)).
Proof.
  apply (convert_pdf_keeps_existing ["docs"; "r.pdf"] 600 false None
           (start docs_fs) ["docs"; "b.png"] (File (Png old_pixmap))).
  vm_compute. reflexivity.
Defined.

(** With overwrite on, [b.png] is replaced, not removed. *)
Lemma convert_pdf_never_removes_witness :
  is_Some (fs (convert_pdf ["docs"; "b.pdf"] 600 true false None
                 (start docs_fs)).1 !! ["docs"; "b.png"]).
Proof.
  apply (convert_pdf_never_removes ["docs"; "b.pdf"] 600 true false None
           (start docs_fs) ["docs"; "b.png"]).
  exists (File (Png old_pixmap)). vm_compute. reflexivity.
Defined.

(** Converting [r.pdf] with overwrite on: [notes.txt] beside it is not an
    output, and [/docs/sub/r.png] is not one either. *)
Lemma convert_pdf_writes_beside_source_witness :
  (∀ n, fs (start docs_fs) !! ["docs"; "notes.txt"] = Some n →
        fs (convert_pdf ["docs"; "r.pdf"] 600 true false None
              (start docs_fs)).1 !! ["docs"; "notes.txt"] = Some n) ∧
  (¬ ["docs"; "notes.txt"] `prefix_of` ["docs"; "r"] →
   fs (convert_pdf ["docs"; "r.pdf"] 600 true false None
         (start docs_fs)).1 !! ["docs"; "notes.txt"]
     = fs (start docs_fs) !! ["docs"; "notes.txt"]).
Proof.
  apply (convert_pdf_writes_beside_source ["docs"; "r.pdf"] 600 true false
           None (start docs_fs) ["docs"; "notes.txt"]).
  - split; [|split]; intros Heq; vm_compute in Heq; discriminate.
  - discriminate.
  - intros i. discriminate.
Defined.

(** With overwrite on, [r.pdf] itself is as it was after its conversion. *)
Lemma convert_pdf_never_alters_a_pdf_witness :
  fs (convert_pdf ["docs"; "r.pdf"] 600 true false None (start docs_fs)).1
    !! ["docs"; "r.pdf"] = Some (File (Pdf three_pages)).
Proof.
  apply (convert_pdf_never_alters_a_pdf ["docs"; "r.pdf"] 600 true false None
           (start docs_fs) ["docs"; "r.pdf"] (Pdf three_pages)).
  - vm_compute. reflexivity.
  - reflexivity.
Defined.

(** [a.pdf] has one page and no [a.png] yet. *)
Lemma convert_pdf_single_page_fresh_witness :
  convert_pdf ["scans"; "a.pdf"] 300 false true None (start scans_fs) =
    (add_log "[OK] a.pdf -> a.png"
       (set_fs <[["scans"; "a.png"]
                 := File (Png {| pix_art := 7; pix_matrix := zoom 300;
                                 pix_alpha := true |})]>
          (start scans_fs)),
     inr tt).
Proof.
  apply (convert_pdf_single_page_fresh ["scans"; "a.pdf"] 300 false true None
           one_page {| page_art := 7; page_fault := None |} (start scans_fs)).
  - vm_compute. reflexivity.
  - left. reflexivity.
  - reflexivity.
  - reflexivity.
  - reflexivity.
  - vm_compute. reflexivity.
Defined.

(** The one page of [torn.pdf] does not render. *)
Lemma convert_pdf_single_page_render_failure_witness :
  convert_pdf ["scans"; "torn.pdf"] 300 false true None (start scans_fs) =
    (add_log "[WARN] Failed to render/save 'torn.pdf' Pg 1: bad xref"
       (start scans_fs),
     inr tt).
Proof.
  apply (convert_pdf_single_page_render_failure ["scans"; "torn.pdf"] 300
           false true None torn
           {| page_art := 4; page_fault := Some "bad xref" |} "bad xref"
           (start scans_fs)).
  - vm_compute. reflexivity.
  - left. reflexivity.
  - reflexivity.
  - reflexivity.
  - reflexivity.
  - vm_compute. reflexivity.
Defined.

(** [Scan.PDF] lies two levels below [/docs]. *)
Lemma find_pdfs_folder_finds_witness :
  ["docs"; "sub"; "Scan.PDF"] ∈ @find_pdfs posix docs_fs ["/docs"].
Proof.
  apply (@find_pdfs_folder_finds posix docs_fs "/docs"
           ["docs"; "sub"; "Scan.PDF"]).
  - vm_compute. reflexivity.
  - by exists ["sub"; "Scan.PDF"].
  - discriminate.
  - exists (File (Pdf one_page)). vm_compute. reflexivity.
  - reflexivity.
Defined.

(** The file named just [.pdf] is found under [/docs]: its whole name is
    [.pdf]. *)
Lemma find_pdfs_folder_found_witness :
  ∃ q, ["docs"; "sub"; ".pdf"] = @resolve posix q ∧
       @expand_resolve posix "/docs" `prefix_of` q ∧
       q ≠ @expand_resolve posix "/docs" ∧
       is_Some (docs_fs !! q) ∧
       (lower (suffix q) = ".pdf" ∨ lower (name q) = ".pdf").
Proof.
  apply (@find_pdfs_folder_found posix docs_fs "/docs" ["docs"; "sub"; ".pdf"]).
  - vm_compute. reflexivity.
  - apply (list_elem_of_lookup_2 _ 0%nat). reflexivity.
Defined.

(** Every PDF under [/scans] has one page: the batch over the folder ends
    with status 0, the page that does not render notwithstanding. *)
Lemma main_single_page_batch_witness :
  @find_pdfs_call posix scans_fs ["/scans"]
    = inr (@find_pdfs posix scans_fs ["/scans"]) ∧
  (@_main posix (cli ["/scans"] false) (start scans_fs)).2 = inr 0 ∧
  @exit_status posix (cli ["/scans"] false) (start scans_fs) = 0.
Proof.
  apply (@main_single_page_batch posix (cli ["/scans"] false)
           (start scans_fs)).
  { intros raw _. reflexivity. }
  { reflexivity. }
  intros q doc Hq. apply elem_of_list_to_map_2 in Hq.
  repeat (apply elem_of_cons in Hq as [Hq|Hq];
          [try discriminate Hq; injection Hq as _ ->; vm_compute; lia|]).
  by apply elem_of_nil in Hq.
Defined.

(** A name with a space in it, wrapped in braces, is one piece. *)
Lemma split_items_clean_witness :
  "/scans/my file.pdf" ≠ EmptyString ∧ clean "/scans/my file.pdf".
Proof.
  apply (split_items_clean "{/scans/my file.pdf} /scans/a.pdf").
  apply (list_elem_of_lookup_2 _ 0%nat). reflexivity.
Defined.

(** Two names as tkinterdnd2 hands them over. *)
Lemma split_dnd_paths_payload_witness :
  @_split_dnd_paths posix "{/scans/my file.pdf} /scans/a.pdf" =
    [ ["scans"; "my file.pdf"]; ["scans"; "a.pdf"] ].
Proof.
  apply (@split_dnd_paths_payload posix ["/scans/my file.pdf"; "/scans/a.pdf"]).
  intros s Hs.
  assert (s = "/scans/my file.pdf" ∨ s = "/scans/a.pdf") as [-> | ->].
  { apply elem_of_cons in Hs as [?|Hs]; [by left|].
    apply elem_of_cons in Hs as [?|Hs]; [by right|].
    by apply elem_of_nil in Hs. }
  all: split; [discriminate|]; split; [|split; reflexivity].
  all: intros c Hc; simpl in Hc.
  all: repeat (apply elem_of_cons in Hc as [-> |Hc]; [split; discriminate|]).
  all: by apply elem_of_nil in Hc.
Defined.

(** A drop on [window] of a new file, a target already listed and a path
    that does not exist. *)
Lemma on_drop_files_adds_witness :
  let app' := @_on_drop_files posix scans_fs
                "{/scans/my file.pdf} /scans/a.pdf /scans/none.pdf" window in
  NoDup (targets app') ∧
  targets window `prefix_of` targets app' ∧
  (∀ p, p ∈ targets app' ↔
        p ∈ targets window ∨
        (p ∈ @_split_dnd_paths posix
               "{/scans/my file.pdf} /scans/a.pdf /scans/none.pdf" ∧
         is_Some (scans_fs !! p))) ∧
  (targets app' = targets window → app' = window).
Proof.
  apply (@on_drop_files_adds posix scans_fs
           "{/scans/my file.pdf} /scans/a.pdf /scans/none.pdf" window).
  apply (@main_tidy posix scans_fs).
Defined.

(** Rows 0 and 2 of [window] selected: [notes.txt] stays. *)
Lemma remove_selected_rows_witness :
  _remove_selected [0; 2]%nat window =
    Some (_refresh_targets (set_targets [["scans"; "notes.txt"]] window)).
Proof.
  apply (remove_selected_rows [0; 2]%nat window).
  - repeat constructor.
  - repeat constructor.
Defined.

(** [window] after a drop. *)
Lemma reachable_tidy_witness :
  let app := @_on_drop_files posix scans_fs
               "{/scans/my file.pdf} /scans/a.pdf" window in
  NoDup (targets app) ∧
  listbox app = to_str <$> targets app ∧
  placeholder app = bool_decide (targets app = []).
Proof.
  apply (@reachable_tidy posix).
  apply (@reach_step posix scans_fs
           (DropFiles "{/scans/my file.pdf} /scans/a.pdf") window).
  - apply (@reach_main posix).
  - reflexivity.
Defined.

(** Start on [window] at 300 DPI and the command line on the same three
    inputs. *)
Lemma start_converts_like_main_witness :
  let m := @_main posix
             {| inputs := ["/scans/a.pdf"; "/scans/notes.txt"; "/scans"];
                dpi := 300; alpha := true; overwrite := false;
                password := None |} (start scans_fs) in
  fs (batch (start scans_fs)).1 = fs m.1 ∧ m.2 = inr 0.
Proof.
  assert (targets window ≠ []) as Htargets by discriminate.
  pose proof (@start_converts_like_main posix window "300" true false
                EmptyString 300 (start scans_fs) Htargets eq_refl) as Hm.
  assert (@_start posix window "300" true false EmptyString (start scans_fs)
          = Ran (batch (start scans_fs))) as Hran
    by (vm_compute; reflexivity).
  rewrite Hran in Hm. cbv beta iota in Hm.
  destruct Hm as [Hfs Hend]. split; [exact Hfs|].
  change ((batch (start scans_fs)).2) with (inr tt : Exn + ()) in Hend.
  exact Hend.
Defined.

(** The log of that run. *)
Lemma start_log_shape_witness :
  ∃ d mid,
    py_int "300" = Some d ∧
    Forall (λ line, line ≠ done_line) mid ∧
    log (batch (start scans_fs)).1 =
      log (start scans_fs)
        ++ [found_line
              (length (@find_pdfs posix (fs (start scans_fs))
                         (to_str <$> targets window))) d]
        ++ mid
        ++ (if (batch (start scans_fs)).2 is inr _ then [done_line] else []).
Proof.
  apply (@start_log_shape posix window "300" true false EmptyString
           (batch (start scans_fs)) (start scans_fs)).
  vm_compute. reflexivity.
Defined.
